(** * Streaming session driver of the dictation client

    A shallow embedding of [service/streaming_recognizer.py]:
    the chunked request producer [RequestIterator] and the response
    aggregator [StreamingRecognizer.recognize_audio_content].

    Python integers are [Z], [bytes] are [list byte], [str] is [string],
    Python floats are the binary64 numbers of [PrimFloat].  A call that may
    raise is a value of [outcome]; a method that mutates [self] returns the
    new object next to its outcome. *)

From Stdlib Require Import ZArith List String Bool Lia.
From Stdlib Require Import PrimFloat SpecFloat FloatOps FloatAxioms.
From Stdlib Require Import Strings.Byte.
Import ListNotations.
Local Open Scope Z_scope.
Set Warnings "-inexact-float".

(** ** Python runtime pieces the module relies on *)

Inductive exn : Type :=
| StopIteration
| IndexError.

Inductive outcome (A : Type) : Type :=
| Returned (a : A)
| Raised (e : exn).
Arguments Returned {A} a.
Arguments Raised {A} e.

Definition len {A : Type} (l : list A) : Z := Z.of_nat (List.length l).

(** A slice bound as Python normalises it for a sequence of length [n]:
    a negative bound counts from the end, and both are clamped to [0, n]. *)
Definition slice_bound (n i : Z) : Z :=
  if i <? 0 then Z.max (i + n) 0 else Z.min i n.

(** [l[a:b]] *)
Definition py_slice {A : Type} (l : list A) (a b : Z) : list A :=
  let lo := slice_bound (len l) a in
  let hi := slice_bound (len l) b in
  firstn (Z.to_nat (hi - lo)) (skipn (Z.to_nat lo) l).

(** ** Collaborators: settings and protocol messages *)

(** The settings object, through the accessors the module calls.  The
    values of [timeouts_map] are kept as the text [format] renders. *)
Record Settings : Type := {
  time_offsets : bool;
  single_utterance : bool;
  interim_results : bool;
  session_id : option string;
  timeouts_map : list (string * string)
}.

Record ConfigField : Type := {
  cf_key : string;
  cf_value : string
}.

Record RecognitionConfig : Type := {
  encoding : string;
  sample_rate_hertz : Z;
  language_code : string;
  enable_word_time_offsets : bool;
  max_alternatives : Z;
  config_fields : list ConfigField
}.

Record StreamingRecognitionConfig : Type := {
  config : RecognitionConfig;
  cfg_single_utterance : bool;
  cfg_interim_results : bool
}.

(** [StreamingRecognizeRequest] is a oneof: a configuration or audio. *)
Inductive StreamingRecognizeRequest : Type :=
| streaming_config (c : StreamingRecognitionConfig)
| audio_content (data : list byte).

Definition is_config (r : StreamingRecognizeRequest) : bool :=
  match r with
  | streaming_config _ => true
  | audio_content _ => false
  end.

Definition build_configuration_request (sampling_rate : Z) (settings : Settings)
  : StreamingRecognizeRequest :=
  streaming_config
    {| config :=
         {| encoding := "LINEAR16";
            sample_rate_hertz := sampling_rate;
            language_code := "pl-PL";
            enable_word_time_offsets := time_offsets settings;
            max_alternatives := 1;
            config_fields :=
              map (fun kv => {| cf_key := fst kv; cf_value := snd kv |})
                  (timeouts_map settings) |};
       cfg_single_utterance := single_utterance settings;
       cfg_interim_results := interim_results settings |}.

(** ** RequestIterator *)

Record Audio : Type := {
  samples : list byte;
  frame_rate : Z
}.

Record RequestIterator : Type := {
  audio_samples : list byte;
  settings : Settings;
  audio_frame_rate : Z;
  frame_samples_size : Z;
  is_initial_request : bool;
  data_index : Z
}.

Definition frame_len : Z := 200.
Definition sample_width : Z := 2.

(** [RequestIterator.__init__] *)
Definition init (audio : Audio) (s : Settings) : RequestIterator :=
  {| audio_samples := samples audio;
     settings := s;
     audio_frame_rate := frame_rate audio;
     frame_samples_size := (frame_rate audio / 1000) * frame_len * sample_width;
     is_initial_request := true;
     data_index := 0 |}.

Definition set_is_initial_request (it : RequestIterator) (b : bool) : RequestIterator :=
  {| audio_samples := audio_samples it;
     settings := settings it;
     audio_frame_rate := audio_frame_rate it;
     frame_samples_size := frame_samples_size it;
     is_initial_request := b;
     data_index := data_index it |}.

Definition set_data_index (it : RequestIterator) (i : Z) : RequestIterator :=
  {| audio_samples := audio_samples it;
     settings := settings it;
     audio_frame_rate := audio_frame_rate it;
     frame_samples_size := frame_samples_size it;
     is_initial_request := is_initial_request it;
     data_index := i |}.

Definition _initial_request (it : RequestIterator)
  : outcome StreamingRecognizeRequest * RequestIterator :=
  let req := build_configuration_request (audio_frame_rate it) (settings it) in
  (Returned req, set_is_initial_request it false).

Definition _normal_request (it : RequestIterator)
  : outcome StreamingRecognizeRequest * RequestIterator :=
  let data := py_slice (audio_samples it) (data_index it)
                       (data_index it + frame_samples_size it) in
  let it' := set_data_index it (data_index it + frame_samples_size it) in
  if data_index it' >=? len (audio_samples it')
  then (Raised StopIteration, it')
  else (Returned (audio_content data), it').

(** [request_builder[self.is_initial_request]] *)
Definition request_builder (b : bool)
  : RequestIterator -> outcome StreamingRecognizeRequest * RequestIterator :=
  if b then _initial_request else _normal_request.

(** [RequestIterator.__next__]; the lock is taken and released around the
    whole body, which the thread model further down spells out. *)
Definition next (it : RequestIterator)
  : outcome StreamingRecognizeRequest * RequestIterator :=
  request_builder (is_initial_request it) it.

(** One pull as a caller sees it: the object before the call and what the
    call gave. *)
Definition pull_record : Type :=
  (RequestIterator * outcome StreamingRecognizeRequest)%type.

(** [n] successive calls of [next], whatever each one gives. *)
Fixpoint pulls (n : nat) (it : RequestIterator) : list pull_record * RequestIterator :=
  match n with
  | O => ([], it)
  | S k =>
      let '(o, it') := next it in
      let '(t, it'') := pulls k it' in
      ((it, o) :: t, it'')
  end.

(** A [for] loop over the iterator (what the transport does with it): pull
    until [StopIteration], collecting the requests.  [None] when [fuel]
    pulls were not enough to reach the end. *)
Fixpoint drain (fuel : nat) (it : RequestIterator)
  : option (list StreamingRecognizeRequest) :=
  match fuel with
  | O => None
  | S k =>
      match next it with
      | (Returned r, it') => option_map (cons r) (drain k it')
      | (Raised _, _) => Some []
      end
  end.

(** The audio payloads of a request sequence, in order. *)
Fixpoint payloads (rs : list StreamingRecognizeRequest) : list byte :=
  match rs with
  | [] => []
  | streaming_config _ :: t => payloads t
  | audio_content d :: t => d ++ payloads t
  end.

Definition no_settings : Settings :=
  {| time_offsets := false; single_utterance := false; interim_results := false;
     session_id := None; timeouts_map := [] |}.


(** ** Response messages

    The protocol buffer classes are generated code outside this module; the
    records keep the fields the aggregator reads.  The type of a word's
    time stamps is whatever the schema makes it: the aggregator only copies
    them, so it is a parameter. *)
Module pb.
Section Messages.
Variable Time : Type.

Record WordInfo : Type := {
  word : string;
  start_time : Time;
  end_time : Time
}.

Record SpeechRecognitionAlternative : Type := {
  transcript : string;
  confidence : float;
  words : list WordInfo
}.

Record StreamingRecognitionResult : Type := {
  alternatives : list SpeechRecognitionAlternative;
  is_final : bool
}.

Record Status : Type := {
  code : Z;
  message : string
}.

Record StreamingRecognizeResponse : Type := {
  error : Status;
  results : list StreamingRecognitionResult
}.
End Messages.
Arguments word {Time} _.
Arguments start_time {Time} _.
Arguments end_time {Time} _.
Arguments transcript {Time} _.
Arguments confidence {Time} _.
Arguments words {Time} _.
Arguments alternatives {Time} _.
Arguments is_final {Time} _.
Arguments error {Time} _.
Arguments results {Time} _.
Arguments Build_WordInfo {Time}.
Arguments Build_SpeechRecognitionAlternative {Time}.
Arguments Build_StreamingRecognitionResult {Time}.
Arguments Build_StreamingRecognizeResponse {Time}.
End pb.

(** ** StreamingRecognizer.recognize_audio_content *)

(** The dictionary the method returns (inside a one-element list). *)
Module res.
Record t (Time : Type) : Type := {
  transcript : string;
  alignment : list (list Time);
  confidence : float
}.
Arguments Build_t {Time}.
Arguments transcript {Time} _.
Arguments alignment {Time} _.
Arguments confidence {Time} _.
End res.

Section Aggregator.
Variable Time : Type.

(** What the method prints, one entry per [print] call. *)
Inductive printed : Type :=
| error_line (code : Z) (message : string)
| temporal_line (first : pb.StreamingRecognitionResult Time).

(** The three accumulators of the loop. *)
Record locals : Type := {
  confirmed_results : list string;
  alignment : list (list Time);
  confidence : float
}.

Definition initial_locals : locals :=
  {| confirmed_results := []; alignment := []; confidence := 1.0%float |}.

(** Python's [min(a, b)]: the first argument unless the second is
    strictly smaller. *)
Definition py_min (a b : float) : float :=
  if PrimFloat.ltb b a then b else a.

(** [lst[0]] *)
Definition index0 {A : Type} (l : list A) : outcome A :=
  match l with
  | x :: _ => Returned x
  | [] => Raised IndexError
  end.

(** The body of [for word in first.alternatives[0].words]. *)
Definition add_word (acc : locals) (w : pb.WordInfo Time) : locals :=
  if negb (String.eqb (pb.word w) "<eps>")
  then {| confirmed_results := confirmed_results acc ++ [pb.word w];
          alignment := alignment acc ++ [[pb.start_time w; pb.end_time w]];
          confidence := confidence acc |}
  else acc.

(** The [if first.is_final:] branch. *)
Definition accumulate_final (time_offsets : bool) (acc : locals)
           (first : pb.StreamingRecognitionResult Time) : outcome locals :=
  match index0 (pb.alternatives first) with
  | Raised e => Raised e
  | Returned alt =>
      let acc' :=
        if time_offsets
        then fold_left add_word (pb.words alt) acc
        else {| confirmed_results := confirmed_results acc ++ [pb.transcript alt];
                alignment := alignment acc;
                confidence := confidence acc |} in
      Returned {| confirmed_results := confirmed_results acc';
                  alignment := alignment acc';
                  confidence := py_min (confidence acc') (pb.confidence alt) |}
  end.

(** One turn of [for recognition in recognitions]: the accumulators after
    it and what it printed, or the exception that leaves the loop. *)
Definition process_recognition (time_offsets : bool) (acc : locals)
           (recognition : pb.StreamingRecognizeResponse Time)
  : outcome (locals * list printed) :=
  if negb (pb.code (pb.error recognition) =? 0)
  then Returned (acc, [error_line (pb.code (pb.error recognition))
                                  (pb.message (pb.error recognition))])
  else match pb.results recognition with
       | first :: _ =>
           if pb.is_final first
           then match accumulate_final time_offsets acc first with
                | Returned acc' => Returned (acc', [])
                | Raised e => Raised e
                end
           else Returned (acc, [temporal_line first])
       | [] => Returned (acc, [])
       end.

(** The whole loop, from given accumulators. *)
Fixpoint reduce (time_offsets : bool) (acc : locals)
         (recognitions : list (pb.StreamingRecognizeResponse Time))
  : outcome locals * list printed :=
  match recognitions with
  | [] => (Returned acc, [])
  | r :: rest =>
      match process_recognition time_offsets acc r with
      | Raised e => (Raised e, [])
      | Returned (acc', out) =>
          let '(o, out') := reduce time_offsets acc' rest in
          (o, out ++ out')
      end
  end.

(** The code after the loop. *)
Definition build_final_results (time_offsets : bool) (acc : locals)
  : list (res.t Time) :=
  let final_transc := String.concat " " (confirmed_results acc) in
  let final_alignment :=
    if time_offsets && negb (Nat.eqb (List.length (alignment acc)) 0)
    then alignment acc
    else [[]] in
  [ {| res.transcript := final_transc;
       res.alignment := final_alignment;
       res.confidence := confidence acc |} ].

(** [recognize_audio_content], given the responses the service call
    streams back: the returned list (or the exception raised) and the
    printed lines. *)
Definition recognize_audio_content (s : Settings)
           (recognitions : list (pb.StreamingRecognizeResponse Time))
  : outcome (list (res.t Time)) * list printed :=
  let time_offsets := time_offsets s in
  match reduce time_offsets initial_locals recognitions with
  | (Returned acc, out) => (Returned (build_final_results time_offsets acc), out)
  | (Raised e, out) => (Raised e, out)
  end.
End Aggregator.

Arguments error_line {Time}.
Arguments temporal_line {Time}.
Arguments confirmed_results {Time} _.
Arguments alignment {Time} _.
Arguments confidence {Time} _.
Arguments Build_locals {Time}.
Arguments initial_locals {Time}.
Arguments index0 {A} _.
Arguments add_word {Time}.
Arguments accumulate_final {Time}.
Arguments process_recognition {Time}.
Arguments reduce {Time}.
Arguments build_final_results {Time}.
Arguments recognize_audio_content {Time}.

Definition ok_status : pb.Status := {| pb.code := 0; pb.message := "" |}.

Definition final_text (text : string) (conf : float)
  : pb.StreamingRecognizeResponse float :=
  {| pb.error := ok_status;
     pb.results := [ {| pb.alternatives :=
                          [ {| pb.transcript := text; pb.confidence := conf;
                               pb.words := [] |} ];
                        pb.is_final := true |} ] |}.

(** * Properties of the request iterator *)

(** ** Slices *)

Lemma len_nonneg {A : Type} (l : list A) : 0 <= len l.
Proof. unfold len. lia. Qed.

Lemma slice_bound_nonneg (n i : Z) : 0 <= i -> slice_bound n i = Z.min i n.
Proof.
  intros Hi. unfold slice_bound.
  destruct (i <? 0) eqn:E; [apply Z.ltb_lt in E; lia | reflexivity].
Qed.

(** A slice that lies inside the sequence: exactly the [f] elements from
    position [a] on. *)
Lemma py_slice_inside {A : Type} (l : list A) (a f : Z) :
  0 <= a -> 0 <= f -> a + f <= len l ->
  py_slice l a (a + f) = firstn (Z.to_nat f) (skipn (Z.to_nat a) l).
Proof.
  intros Ha Hf Hin. unfold py_slice.
  rewrite !slice_bound_nonneg by lia.
  replace (Z.min (a + f) (len l) - Z.min a (len l)) with f by lia.
  replace (Z.min a (len l)) with a by lia.
  reflexivity.
Qed.

Lemma py_slice_inside_len {A : Type} (l : list A) (a f : Z) :
  0 <= a -> 0 <= f -> a + f <= len l ->
  len (py_slice l a (a + f)) = f.
Proof.
  intros Ha Hf Hin. rewrite py_slice_inside by assumption.
  unfold len in *. rewrite length_firstn, length_skipn. lia.
Qed.

Lemma firstn_plus {A : Type} (n m : nat) (l : list A) :
  firstn (n + m) l = firstn n l ++ firstn m (skipn n l).
Proof.
  revert l. induction n as [|n IH]; intros l; [reflexivity|].
  destruct l as [|x l]; cbn.
  - now rewrite firstn_nil.
  - now rewrite IH.
Qed.

(** Two adjacent slices make one. *)
Lemma py_slice_adjacent {A : Type} (l : list A) (a f g : Z) :
  0 <= a -> 0 <= f -> 0 <= g -> a + f + g <= len l ->
  py_slice l a (a + f) ++ py_slice l (a + f) (a + f + g) = py_slice l a (a + (f + g)).
Proof.
  intros Ha Hf Hg Hin.
  rewrite !py_slice_inside by lia.
  replace (Z.to_nat (a + f)) with (Z.to_nat f + Z.to_nat a)%nat by lia.
  rewrite <- skipn_skipn.
  replace (Z.to_nat (f + g)) with (Z.to_nat f + Z.to_nat g)%nat by lia.
  now rewrite firstn_plus.
Qed.

(** ** One call of [next] *)

Lemma next_initial (it : RequestIterator) :
  is_initial_request it = true ->
  next it = (Returned (build_configuration_request (audio_frame_rate it) (settings it)),
             set_is_initial_request it false).
Proof. intros H. unfold next. rewrite H. reflexivity. Qed.

Lemma next_streaming (it : RequestIterator) :
  is_initial_request it = false -> next it = _normal_request it.
Proof. intros H. unfold next. rewrite H. reflexivity. Qed.

(** A call in the streaming phase raises exactly when the advanced cursor
    is at or past the end, and otherwise returns the frame at the cursor. *)
Lemma normal_request_cases (it : RequestIterator) :
  let it' := set_data_index it (data_index it + frame_samples_size it) in
  (len (audio_samples it) <= data_index it + frame_samples_size it /\
   _normal_request it = (Raised StopIteration, it'))
  \/
  (data_index it + frame_samples_size it < len (audio_samples it) /\
   _normal_request it =
     (Returned (audio_content (py_slice (audio_samples it) (data_index it)
                                 (data_index it + frame_samples_size it))), it')).
Proof.
  unfold _normal_request. cbn.
  destruct (data_index it + frame_samples_size it >=? len (audio_samples it)) eqn:E.
  - left. split; [apply Z.geb_le in E; lia | reflexivity].
  - right. split; [|reflexivity].
    rewrite Z.geb_leb in E. apply Z.leb_gt in E. exact E.
Qed.

(** The frame size the constructor derives. *)
Lemma frame_samples_size_init (audio : Audio) (s : Settings) :
  frame_samples_size (init audio s) = frame_rate audio / 1000 * 400.
Proof. unfold init, frame_len, sample_width. cbn. lia. Qed.

Lemma frame_samples_size_nonneg (audio : Audio) (s : Settings) :
  0 <= frame_rate audio -> 0 <= frame_samples_size (init audio s).
Proof.
  intros H. rewrite frame_samples_size_init.
  pose proof (Z.div_pos (frame_rate audio) 1000 H). lia.
Qed.

(** ** Draining the iterator *)

(** [n] consecutive full frames of [l], of [f] bytes each, from [idx] on. *)
Fixpoint frames (n : nat) (l : list byte) (idx f : Z) : list StreamingRecognizeRequest :=
  match n with
  | O => []
  | S k => audio_content (py_slice l idx (idx + f)) :: frames k l (idx + f) f
  end.

Lemma frames_length (n : nat) (l : list byte) (idx f : Z) :
  List.length (frames n l idx f) = n.
Proof. revert idx. induction n as [|n IH]; intros idx; cbn; [reflexivity | now rewrite IH]. Qed.

Lemma frames_no_config (n : nat) (l : list byte) (idx f : Z) :
  forallb is_config (frames n l idx f) = false \/ n = O.
Proof. destruct n; [now right | now left]. Qed.

Lemma frames_payloads (n : nat) (l : list byte) (idx f : Z) :
  0 <= idx -> 0 <= f -> idx + Z.of_nat n * f <= len l ->
  payloads (frames n l idx f) = py_slice l idx (idx + Z.of_nat n * f).
Proof.
  revert idx. induction n as [|n IH]; intros idx Hidx Hf Hin.
  - cbn [frames payloads]. rewrite py_slice_inside by lia. reflexivity.
  - cbn [frames payloads]. rewrite IH by lia.
    replace (idx + f + Z.of_nat n * f) with (idx + f + (Z.of_nat n * f)) by lia.
    rewrite py_slice_adjacent by nia.
    f_equal. lia.
Qed.

(** In the streaming phase with a positive frame size the loop ends, and
    gives the full frames that end strictly before the end of the buffer:
    the call that reaches the end raises instead of returning its slice. *)
Lemma drain_streaming (n : nat) :
  forall (it : RequestIterator) (fuel : nat),
    is_initial_request it = false ->
    0 < frame_samples_size it ->
    len (audio_samples it) <= data_index it + (Z.of_nat n + 1) * frame_samples_size it ->
    (n = O \/ data_index it + Z.of_nat n * frame_samples_size it < len (audio_samples it)) ->
    (n < fuel)%nat ->
    drain fuel it
    = Some (frames n (audio_samples it) (data_index it) (frame_samples_size it)).
Proof.
  induction n as [|n IH]; intros it fuel Hph Hf Hup Hlo Hfuel.
  - destruct fuel as [|fuel]; [lia|].
    cbn [drain]. rewrite next_streaming by assumption.
    destruct (normal_request_cases it) as [[_ E]|[Hlt _]]; [|lia].
    rewrite E. reflexivity.
  - destruct fuel as [|fuel]; [lia|].
    destruct Hlo as [Hlo|Hlo]; [discriminate|].
    cbn [drain]. rewrite next_streaming by assumption.
    destruct (normal_request_cases it) as [[Hge _]|[_ E]]; [nia|].
    rewrite E.
    rewrite (IH (set_data_index it (data_index it + frame_samples_size it)) fuel);
      cbn; try assumption; try lia.
    reflexivity.

Qed.

(** The number of frames the loop gives for a buffer of [L] bytes and a
    frame size [F]. *)
Definition emitted_frames (L F : Z) : nat := Z.to_nat ((L - 1) / F).

(** What draining a fresh iterator gives when the frame size is positive. *)
Lemma drain_init (audio : Audio) (s : Settings) (fuel : nat) :
  let F := frame_samples_size (init audio s) in
  let n := emitted_frames (len (samples audio)) F in
  0 < F ->
  (n + 1 < fuel)%nat ->
  drain fuel (init audio s)
  = Some (build_configuration_request (frame_rate audio) s
            :: frames n (samples audio) 0 F).
Proof.
  intros F n HF Hfuel.
  destruct fuel as [|fuel]; [lia|].
  cbn [drain]. rewrite next_initial by reflexivity.
  cbn [option_map]. unfold option_map.
  pose proof (len_nonneg (samples audio)) as HL.
  assert (Hq : len (samples audio) - 1 < ((len (samples audio) - 1) / F + 1) * F).
  { pose proof (Z.mul_succ_div_gt (len (samples audio) - 1) F HF). lia. }
  assert (Hq' : 1 <= len (samples audio) ->
                (len (samples audio) - 1) / F * F <= len (samples audio) - 1).
  { intros _. pose proof (Z.mul_div_le (len (samples audio) - 1) F HF). lia. }
  assert (Hn : (len (samples audio) = 0 /\ n = O) \/
               (1 <= len (samples audio) /\
                Z.of_nat n = (len (samples audio) - 1) / F)).
  { unfold n, emitted_frames.
    destruct (Z.eq_dec (len (samples audio)) 0) as [E0|E0].
    - left. split; [assumption|]. rewrite E0.
      assert ((0 - 1) / F < 0) by (apply Z.div_lt_upper_bound; lia). lia.
    - right. split; [lia|]. rewrite Z2Nat.id; [reflexivity|].
      apply Z.div_pos; lia. }
  rewrite (drain_streaming n).
  - reflexivity.
  - reflexivity.
  - exact HF.
  - change (len (samples audio) <= 0 + (Z.of_nat n + 1) * F).
    destruct Hn as [[E0 En]|[H1 En]]; [rewrite E0, En; lia | rewrite En; lia].
  - change (n = O \/ 0 + Z.of_nat n * F < len (samples audio)).
    destruct Hn as [[E0 En]|[H1 En]]; [now left | right; rewrite En; lia].
  - lia.
Qed.

(** For a buffer that is not empty the loop gives [ceil(L/F)] requests in
    all, the configuration included, and their payloads are the buffer
    without its last frame. *)
Lemma drain_drops_last_frame (audio : Audio) (s : Settings) (fuel : nat) :
  let L := len (samples audio) in
  let F := frame_samples_size (init audio s) in
  let n := emitted_frames L F in
  0 < F -> 1 <= L -> (n + 1 < fuel)%nat ->
  exists chunks,
    drain fuel (init audio s) = Some chunks /\
    len chunks = (L + F - 1) / F /\
    payloads chunks = firstn (Z.to_nat (Z.of_nat n * F)) (samples audio) /\
    Z.of_nat n * F < L.
Proof.
  intros L F n HF HL Hfuel.
  assert (En : Z.of_nat n = (L - 1) / F).
  { unfold n, emitted_frames. rewrite Z2Nat.id; [reflexivity|].
    apply Z.div_pos; lia. }
  assert (Hlt : Z.of_nat n * F < L).
  { rewrite En. pose proof (Z.mul_div_le (L - 1) F HF). lia. }
  eexists. split; [apply drain_init; assumption|].
  split; [|split; [|exact Hlt]].
  - unfold len. cbn [List.length]. rewrite frames_length.
    fold n. replace (L + F - 1) with ((L - 1) + 1 * F) by lia.
    rewrite Z.div_add by lia. rewrite <- En. unfold n, L, F, len. lia.
  - cbn [payloads build_configuration_request]. fold F n.
    rewrite frames_payloads by (fold L; lia).
    change (0 + Z.of_nat n * F) with (0 + (Z.of_nat n * F)).
    rewrite py_slice_inside by (fold L; lia).
    reflexivity.
Qed.

Definition one_byte_audio : Audio := {| samples := [x2a]; frame_rate := 1000 |}.

(** C1 (evaluation at the failing input): for the one-byte buffer at
    1000 Hz, frame size 400, the claim asks for 1 + ceil(1/400) = 2 chunks
    whose payloads make up the buffer; the loop gives the configuration
    chunk alone and no payload byte, because the call that reaches the end
    of the buffer raises [StopIteration] instead of returning its slice. *)
Theorem C1_last_frame_not_emitted :
  frame_samples_size (init one_byte_audio no_settings) = 400 /\
  drain 2 (init one_byte_audio no_settings)
  = Some [build_configuration_request 1000 no_settings] /\
  fst (next (set_is_initial_request (init one_byte_audio no_settings) false))
  = Raised StopIteration /\
  payloads [build_configuration_request 1000 no_settings] = [] /\
  payloads [build_configuration_request 1000 no_settings] <> samples one_byte_audio.
Proof.
  repeat split; try reflexivity. cbn. discriminate.
Qed.

(** ** Frame size zero *)

Definition slow_audio : Audio := {| samples := [x2a]; frame_rate := 999 |}.

Lemma slow_audio_streams_forever (fuel : nat) :
  drain fuel (set_is_initial_request (init slow_audio no_settings) false) = None.
Proof.
  induction fuel as [|fuel IH]; [reflexivity|].
  cbn [drain].
  change (next (set_is_initial_request (init slow_audio no_settings) false))
    with (Returned (audio_content []),
          set_is_initial_request (init slow_audio no_settings) false).
  cbv beta iota. rewrite IH. reflexivity.
Qed.

(** C2 (counterexample): at 999 Hz the frame size is 0; the constructor
    gives an iterator all the same, its first three pulls return the
    configuration and two empty audio frames, and no number of pulls
    reaches the end of the one-byte buffer. *)
Lemma C2_counterexample :
  frame_samples_size (init slow_audio no_settings) = 0 /\
  map snd (fst (pulls 3 (init slow_audio no_settings)))
  = [Returned (build_configuration_request 999 no_settings);
     Returned (audio_content []); Returned (audio_content [])] /\
  ~ (exists fuel chunks, drain fuel (init slow_audio no_settings) = Some chunks).
Proof.
  split; [reflexivity|]. split; [reflexivity|].
  intros (fuel & chunks & H).
  destruct fuel as [|fuel]; [discriminate|].
  cbn [drain] in H. rewrite next_initial in H by reflexivity.
  rewrite slow_audio_streams_forever in H. discriminate.
Qed.

Definition slow_empty_audio : Audio := {| samples := []; frame_rate := 999 |}.

(** In the streaming phase, with a frame size that is not positive and a
    cursor whose next value is below the length of the buffer, no number
    of pulls reaches the end: the cursor never moves forward. *)
Lemma drain_never_ends (fuel : nat) :
  forall it : RequestIterator,
    is_initial_request it = false ->
    frame_samples_size it <= 0 ->
    data_index it + frame_samples_size it < len (audio_samples it) ->
    drain fuel it = None.
Proof.
  induction fuel as [|fuel IH]; intros it Hph HF Hlt; [reflexivity|].
  cbn [drain]. rewrite next_streaming by assumption.
  destruct (normal_request_cases it) as [[Hge _]|[_ E]]; [lia|].
  rewrite E. rewrite IH; [reflexivity | exact Hph | exact HF |].
  cbn [data_index frame_samples_size audio_samples set_data_index]. lia.
Qed.

(** C2 (amended): the constructor does no validation and nothing in the
    iterator reports a configuration error.  For every audio input the
    first pull returns a configuration request; for a frame rate from 0
    to 999 Hz the frame size is 0.  The loop over the iterator ends, with
    the configuration request first, when the frame size is positive or
    when it is 0 and the buffer is empty; it never ends when the frame
    size is 0 and the buffer is not empty, or when the frame size is
    negative. *)
Theorem C2_no_validation_ends_when_positive (audio : Audio) (s : Settings) :
  (exists c, fst (next (init audio s)) = Returned (streaming_config c)) /\
  (0 <= frame_rate audio < 1000 -> frame_samples_size (init audio s) = 0) /\
  (0 < frame_samples_size (init audio s) \/
   (frame_samples_size (init audio s) = 0 /\ samples audio = []) ->
   exists fuel c rest,
     drain fuel (init audio s) = Some (streaming_config c :: rest)) /\
  (frame_samples_size (init audio s) < 0 \/
   (frame_samples_size (init audio s) = 0 /\ samples audio <> []) ->
   forall fuel, drain fuel (init audio s) = None).
Proof.
  split; [eexists; reflexivity|]. split; [|split].
  - intros Hlt. rewrite frame_samples_size_init.
    rewrite Z.div_small by lia. reflexivity.
  - intros [HF|[HF Hempty]].
    + eexists. eexists. eexists.
      rewrite drain_init; [unfold build_configuration_request; reflexivity
                          | exact HF | apply Nat.lt_succ_diag_r].
    + exists 2%nat. eexists. eexists.
      cbn [drain]. rewrite next_initial by reflexivity.
      rewrite next_streaming by reflexivity.
      destruct (normal_request_cases (set_is_initial_request (init audio s) false))
        as [[_ E]|[Hlt _]].
      * rewrite E. unfold build_configuration_request. reflexivity.
      * exfalso.
        cbn [audio_samples set_is_initial_request init data_index] in Hlt.
        change (frame_samples_size (set_is_initial_request (init audio s) false))
          with (frame_samples_size (init audio s)) in Hlt.
        rewrite Hempty, HF in Hlt. unfold len in Hlt. cbn [List.length] in Hlt. lia.
  - intros Hbad fuel. destruct fuel as [|fuel]; [reflexivity|].
    cbn [drain]. rewrite next_initial by reflexivity.
    rewrite drain_never_ends; [reflexivity | reflexivity | |].
    + change (frame_samples_size (set_is_initial_request (init audio s) false))
        with (frame_samples_size (init audio s)). lia.
    + cbn [audio_samples set_is_initial_request init data_index].
      change (frame_samples_size (set_is_initial_request (init audio s) false))
        with (frame_samples_size (init audio s)).
      pose proof (len_nonneg (samples audio)) as HL.
      destruct Hbad as [HF|[HF Hne]]; [lia|].
      rewrite HF. destruct (samples audio) as [|x l]; [contradiction|].
      unfold len. cbn [List.length]. lia.
Qed.

Lemma C2_no_validation_ends_when_positive_witness :
  ((exists c, fst (next (init slow_empty_audio no_settings))
              = Returned (streaming_config c)) /\
   frame_samples_size (init slow_empty_audio no_settings) = 0 /\
   (exists fuel c rest,
      drain fuel (init slow_empty_audio no_settings)
      = Some (streaming_config c :: rest))) /\
  (forall fuel, drain fuel (init slow_audio no_settings) = None).
Proof.
  split.
  - destruct (C2_no_validation_ends_when_positive slow_empty_audio no_settings)
      as (H1 & H2 & H3 & _).
    split; [exact H1|]. split.
    + apply H2. cbn. lia.
    + apply H3. right. split; reflexivity.
  - destruct (C2_no_validation_ends_when_positive slow_audio no_settings)
      as (_ & _ & _ & H4).
    apply H4. right. split; [reflexivity | discriminate].
Defined.

(** ** Empty buffer *)

(** C3: for an empty buffer and a positive frame size, the first pull
    returns a configuration request (for the frame rate of the audio), the
    pull right after it raises [StopIteration], and so the loop gives
    exactly that one configuration request. *)
Theorem C3_empty_buffer (audio : Audio) (s : Settings) :
  samples audio = [] ->
  0 < frame_samples_size (init audio s) ->
  exists c,
    sample_rate_hertz (config c) = frame_rate audio /\
    map snd (fst (pulls 2 (init audio s)))
    = [Returned (streaming_config c); Raised StopIteration] /\
    forall fuel, (2 <= fuel)%nat ->
      drain fuel (init audio s) = Some [streaming_config c].
Proof.
  intros Hempty HF.
  assert (E : _normal_request (set_is_initial_request (init audio s) false)
              = (Raised StopIteration,
                 set_data_index (set_is_initial_request (init audio s) false)
                   (0 + frame_samples_size (init audio s)))).
  { destruct (normal_request_cases (set_is_initial_request (init audio s) false))
      as [[_ E]|[Hlt _]]; [exact E|].
    exfalso. cbn [audio_samples set_is_initial_request init data_index] in Hlt.
    rewrite Hempty in Hlt. unfold len in Hlt. cbn [List.length] in Hlt.
    change (frame_samples_size (set_is_initial_request (init audio s) false))
      with (frame_samples_size (init audio s)) in Hlt. lia. }
  eexists. split; [|split].
  2:{ cbn [pulls]. rewrite next_initial by reflexivity.
      rewrite next_streaming by reflexivity. rewrite E.
      unfold build_configuration_request. reflexivity. }
  - reflexivity.
  - intros fuel Hfuel.
    destruct fuel as [|[|fuel]]; [lia | lia |].
    cbn [drain]. rewrite next_initial by reflexivity.
    rewrite next_streaming by reflexivity. rewrite E. reflexivity.
Qed.

Definition empty_audio : Audio := {| samples := []; frame_rate := 16000 |}.

Lemma C3_empty_buffer_witness :
  exists c,
    sample_rate_hertz (config c) = frame_rate empty_audio /\
    map snd (fst (pulls 2 (init empty_audio no_settings)))
    = [Returned (streaming_config c); Raised StopIteration] /\
    forall fuel, (2 <= fuel)%nat ->
      drain fuel (init empty_audio no_settings) = Some [streaming_config c].
Proof.
  apply (C3_empty_buffer empty_audio no_settings); [reflexivity | reflexivity].
Defined.

(** ** The trace of a session *)

Lemma pulls_succ (n : nat) (it : RequestIterator) :
  fst (pulls (S n) it) = (it, fst (next it)) :: fst (pulls n (snd (next it))).
Proof.
  cbn [pulls]. destruct (next it) as [o it']. cbn [fst snd].
  destruct (pulls n it') as [t it'']. reflexivity.
Qed.

(** Every record of a trace that starts in the streaming phase: the
    object is still streaming, over the same buffer with the same frame
    size, its cursor is the start cursor plus one frame per earlier pull,
    and the outcome is that of [_normal_request]. *)
Lemma pulls_streaming_nth (n : nat) :
  forall (it : RequestIterator) (k : nat) (r : pull_record),
    is_initial_request it = false ->
    nth_error (fst (pulls n it)) k = Some r ->
    is_initial_request (fst r) = false /\
    audio_samples (fst r) = audio_samples it /\
    frame_samples_size (fst r) = frame_samples_size it /\
    data_index (fst r) = data_index it + Z.of_nat k * frame_samples_size it /\
    snd r = fst (_normal_request (fst r)).
Proof.
  induction n as [|n IH]; intros it k r Hph Hk.
  - destruct k; discriminate.
  - rewrite pulls_succ in Hk. destruct k as [|k].
    + injection Hk as <-. cbn [fst snd].
      rewrite next_streaming by assumption.
      repeat split; try assumption; lia.
    + cbn [nth_error] in Hk. rewrite next_streaming in Hk by assumption.
      apply IH in Hk.
      * destruct Hk as (H1 & H2 & H3 & H4 & H5).
        destruct (normal_request_cases it) as [[_ E]|[_ E]];
          rewrite E in H2, H3, H4; cbn [snd] in H2, H3, H4;
          cbn [audio_samples frame_samples_size data_index set_data_index]
            in H2, H3, H4;
          (repeat split; try assumption; lia).
      * destruct (normal_request_cases it) as [[_ E]|[_ E]];
          rewrite E; exact Hph.
Qed.

(** Every record of the trace of a fresh iterator: the first one is the
    configuration pull, the others are streaming pulls with the cursor at
    a multiple of the frame size. *)
Lemma pulls_init_nth (audio : Audio) (s : Settings) (n k : nat) (r : pull_record) :
  nth_error (fst (pulls n (init audio s))) k = Some r ->
  (k = O /\ r = (init audio s,
                 Returned (build_configuration_request (frame_rate audio) s)))
  \/
  (exists k', k = S k' /\
     is_initial_request (fst r) = false /\
     audio_samples (fst r) = samples audio /\
     frame_samples_size (fst r) = frame_samples_size (init audio s) /\
     data_index (fst r) = Z.of_nat k' * frame_samples_size (init audio s) /\
     snd r = fst (_normal_request (fst r))).
Proof.
  intros Hk. destruct n as [|n]; [destruct k; discriminate|].
  rewrite pulls_succ in Hk. destruct k as [|k].
  - left. injection Hk as <-. split; reflexivity.
  - right. exists k. split; [reflexivity|].
    cbn [nth_error] in Hk. rewrite next_initial in Hk by reflexivity.
    apply pulls_streaming_nth in Hk; [|reflexivity].
    destruct Hk as (H1 & H2 & H3 & H4 & H5).
    repeat split; assumption.
Qed.

(** Whether a pull gave a configuration request. *)
Definition gave_config (o : outcome StreamingRecognizeRequest) : bool :=
  match o with
  | Returned r => is_config r
  | Raised _ => false
  end.


(** A streaming pull that returned audio returned the [F] bytes at the
    cursor, and they end before the end of the buffer. *)
Lemma normal_request_audio (it : RequestIterator) (d : list byte) :
  0 <= data_index it -> 0 <= frame_samples_size it ->
  fst (_normal_request it) = Returned (audio_content d) ->
  d = py_slice (audio_samples it) (data_index it) (data_index it + len d) /\
  len d = frame_samples_size it /\
  data_index it + frame_samples_size it < len (audio_samples it).
Proof.
  intros Hidx HF H.
  destruct (normal_request_cases it) as [[_ E]|[Hlt E]]; rewrite E in H;
    [discriminate|].
  cbn [fst] in H. injection H as <-.
  rewrite py_slice_inside_len by lia.
  repeat split; try reflexivity; assumption.
Qed.





Definition two_frame_audio : Audio :=
  {| samples := repeat x2a 900; frame_rate := 1000 |}.




(** * Properties of the aggregator *)

(** ** The minimum with the initial confidence *)

Lemma SFcompare_finite_eq (x : spec_float) (m : positive) (e : Z) :
  SFcompare x (S754_finite false m e) = Some Eq -> x = S754_finite false m e.
Proof.
  destruct x as [sx|sx| |sx mx ex]; unfold SFcompare.
  - discriminate.
  - destruct sx; discriminate.
  - discriminate.
  - destruct sx; [discriminate|].
    destruct (ex ?= e) eqn:Ee; try discriminate.
    intros H. injection H as H.
    apply Z.compare_eq in Ee. apply Pos.compare_eq in H. now subst.
Qed.

Lemma Prim2SF_one : Prim2SF 1 = S754_finite false 4503599627370496 (-52).
Proof. vm_compute. reflexivity. Qed.

(** A confidence that is at most 1 is what [min(1.0, c)] gives. *)
Lemma py_min_one (c : float) :
  PrimFloat.leb c 1 = true -> py_min 1 c = c.
Proof.
  intros Hle. unfold py_min.
  destruct (PrimFloat.ltb c 1) eqn:Hlt; [reflexivity|].
  rewrite leb_spec in Hle. rewrite ltb_spec in Hlt.
  unfold SFleb in Hle. unfold SFltb in Hlt.
  destruct (SFcompare (Prim2SF c) (Prim2SF 1)) as [[| |]|] eqn:E;
    try discriminate.
  rewrite Prim2SF_one in E. apply SFcompare_finite_eq in E.
  rewrite <- Prim2SF_one in E. apply Prim2SF_inj in E. now subst.
Qed.

(** ** Words with time offsets *)

(** The test of the loop over words: the word is not the placeholder. *)
Definition spoken {Time : Type} (w : pb.WordInfo Time) : bool :=
  negb (String.eqb (pb.word w) "<eps>").

Definition time_pair {Time : Type} (w : pb.WordInfo Time) : list Time :=
  [pb.start_time w; pb.end_time w].

Lemma add_words_spec {Time : Type} (ws : list (pb.WordInfo Time)) :
  forall acc : locals Time,
    fold_left add_word ws acc
    = {| confirmed_results := confirmed_results acc ++ map pb.word (filter spoken ws);
         alignment := alignment acc ++ map time_pair (filter spoken ws);
         confidence := confidence acc |}.
Proof.
  induction ws as [|w ws IH]; intros acc.
  - cbn. rewrite !app_nil_r. destruct acc; reflexivity.
  - cbn [fold_left filter]. rewrite IH. unfold add_word, spoken.
    destruct (negb (String.eqb (pb.word w) "<eps>"));
      cbn [confirmed_results alignment confidence map app];
      rewrite <- ?app_assoc; reflexivity.
Qed.

(** ** One final result *)

Definition offsets_on : Settings :=
  {| time_offsets := true; single_utterance := false; interim_results := false;
     session_id := None; timeouts_map := [] |}.

Definition final_words {Time : Type} (ws : list (pb.WordInfo Time)) (text : string)
           (conf : float) : pb.StreamingRecognizeResponse Time :=
  {| pb.error := ok_status;
     pb.results := [ {| pb.alternatives :=
                          [ {| pb.transcript := text; pb.confidence := conf;
                               pb.words := ws |} ];
                        pb.is_final := true |} ] |}.

Definition hi_eps_there : list (pb.WordInfo float) :=
  [ {| pb.word := "hi"; pb.start_time := 0.0%float; pb.end_time := 0.5%float |};
    {| pb.word := "<eps>"; pb.start_time := 0.5%float; pb.end_time := 0.5%float |};
    {| pb.word := "there"; pb.start_time := 0.5%float; pb.end_time := 1.0%float |} ].

(** C6 (amended): with time offsets enabled, the one final result with
    words hi, <eps>, there and a confidence [c] of at most 1 gives transcript
    "hi there", alignment [[0.0,0.5],[0.5,1.0]] and confidence [c]; in
    general the loop over words skips every word whose text is "<eps>" and
    appends, for each other word in order, its text to the confirmed
    results and its (start, end) pair to the alignment. *)
Theorem C6_time_offsets (s : Settings) (text : string) (c : float) :
  time_offsets s = true ->
  PrimFloat.leb c 1 = true ->
  fst (recognize_audio_content s [final_words hi_eps_there text c])
  = Returned [ {| res.transcript := "hi there";
                  res.alignment := [[0.0%float; 0.5%float]; [0.5%float; 1.0%float]];
                  res.confidence := c |} ] /\
  (forall (Time : Type) (ws : list (pb.WordInfo Time)) (acc : locals Time),
      fold_left add_word ws acc
      = {| confirmed_results :=
             confirmed_results acc ++ map pb.word (filter spoken ws);
           alignment := alignment acc ++ map time_pair (filter spoken ws);
           confidence := confidence acc |}).
Proof.
  intros Hon Hle. split.
  - unfold recognize_audio_content. rewrite Hon.
    cbn. rewrite (py_min_one c Hle). reflexivity.
  - intros Time ws acc. apply add_words_spec.
Qed.

Lemma C6_time_offsets_witness :
  fst (recognize_audio_content offsets_on [final_words hi_eps_there "hi there" 0.75%float])
  = Returned [ {| res.transcript := "hi there";
                  res.alignment := [[0.0%float; 0.5%float]; [0.5%float; 1.0%float]];
                  res.confidence := 0.75%float |} ] /\
  (forall (Time : Type) (ws : list (pb.WordInfo Time)) (acc : locals Time),
      fold_left add_word ws acc
      = {| confirmed_results :=
             confirmed_results acc ++ map pb.word (filter spoken ws);
           alignment := alignment acc ++ map time_pair (filter spoken ws);
           confidence := confidence acc |}).
Proof.
  apply (C6_time_offsets offsets_on "hi there" 0.75%float); reflexivity.
Defined.

(** C6 (counterexample): [confidence] starts at 1.0 and is only ever
    replaced by a smaller value, so a final result whose confidence is
    1.5, or is not a number, gives confidence 1.0 and not its own. *)
Lemma C6_counterexample :
  fst (recognize_audio_content offsets_on
         [final_words hi_eps_there "hi there" 1.5%float])
  = Returned [ {| res.transcript := "hi there";
                  res.alignment := [[0.0%float; 0.5%float]; [0.5%float; 1.0%float]];
                  res.confidence := 1.0%float |} ] /\
  fst (recognize_audio_content offsets_on
         [final_words hi_eps_there "hi there" 1.5%float])
  <> Returned [ {| res.transcript := "hi there";
                   res.alignment := [[0.0%float; 0.5%float]; [0.5%float; 1.0%float]];
                   res.confidence := 1.5%float |} ] /\
  fst (recognize_audio_content offsets_on
         [final_words hi_eps_there "hi there" nan])
  = Returned [ {| res.transcript := "hi there";
                  res.alignment := [[0.0%float; 0.5%float]; [0.5%float; 1.0%float]];
                  res.confidence := 1.0%float |} ] /\
  PrimFloat.eqb 1.0%float nan = false.
Proof.
  split; [vm_compute; reflexivity|]. split; [|split; vm_compute; reflexivity].
  intros H.
  apply (f_equal (fun o => match o with
                           | Returned [d] => PrimFloat.ltb 1.25%float (res.confidence d)
                           | _ => false
                           end)) in H.
  vm_compute in H. discriminate.
Qed.

(** ** Responses that do not accumulate *)

(** The accumulators a turn of the loop leaves, without what it printed. *)
Definition locals_after {Time : Type} (o : outcome (locals Time * list (printed Time)))
  : outcome (locals Time) :=
  match o with
  | Returned (acc, _) => Returned acc
  | Raised e => Raised e
  end.

Lemma reduce_cons_fst {Time : Type} (t : bool) (acc : locals Time)
      (r : pb.StreamingRecognizeResponse Time)
      (rest : list (pb.StreamingRecognizeResponse Time)) :
  fst (reduce t acc (r :: rest))
  = match locals_after (process_recognition t acc r) with
    | Returned acc' => fst (reduce t acc' rest)
    | Raised e => Raised e
    end.
Proof.
  cbn [reduce]. destruct (process_recognition t acc r) as [[acc' out]|e]; cbn.
  - destruct (reduce t acc' rest) as [o out']. reflexivity.
  - reflexivity.
Qed.

(** A response all of whose results are interim. *)
Definition interim_only {Time : Type} (r : pb.StreamingRecognizeResponse Time) : bool :=
  forallb (fun x => negb (pb.is_final x)) (pb.results r).

Lemma process_interim {Time : Type} (t : bool) (acc : locals Time)
      (r : pb.StreamingRecognizeResponse Time) :
  interim_only r = true ->
  locals_after (process_recognition t acc r) = Returned acc.
Proof.
  intros H. unfold process_recognition.
  destruct (negb (pb.code (pb.error r) =? 0)); [reflexivity|].
  unfold interim_only in H.
  destruct (pb.results r) as [|first others]; [reflexivity|].
  cbn [forallb] in H. apply andb_true_iff in H. destruct H as [H _].
  apply negb_true_iff in H. rewrite H. reflexivity.
Qed.

Lemma reduce_interim {Time : Type} (t : bool)
      (rs : list (pb.StreamingRecognizeResponse Time)) :
  forall acc : locals Time,
    Forall (fun r => interim_only r = true) rs ->
    fst (reduce t acc rs) = Returned acc.
Proof.
  induction rs as [|r rs IH]; intros acc H.
  - reflexivity.
  - inversion H as [|? ? Hr Hrs]; subst.
    rewrite reduce_cons_fst, (process_interim t acc r Hr).
    apply IH. exact Hrs.
Qed.

(** C7: a response sequence with interim results only gives the empty
    transcript, the placeholder alignment [[]] and confidence 1.0,
    whatever the settings. *)
Theorem C7_interim_only {Time : Type} (s : Settings)
        (rs : list (pb.StreamingRecognizeResponse Time)) :
  Forall (fun r => interim_only r = true) rs ->
  fst (recognize_audio_content s rs)
  = Returned [ {| res.transcript := ""; res.alignment := [[]];
                  res.confidence := 1.0%float |} ].
Proof.
  intros H. unfold recognize_audio_content.
  pose proof (reduce_interim (time_offsets s) rs initial_locals H) as E.
  destruct (reduce (time_offsets s) initial_locals rs) as [o out].
  cbn [fst] in E. subst o. cbn [fst].
  unfold build_final_results. cbn. rewrite andb_false_r. reflexivity.
Qed.

Definition interim_text (text : string) : pb.StreamingRecognizeResponse float :=
  {| pb.error := ok_status;
     pb.results := [ {| pb.alternatives :=
                          [ {| pb.transcript := text; pb.confidence := 0.5%float;
                               pb.words := [] |} ];
                        pb.is_final := false |} ] |}.

Lemma C7_interim_only_witness :
  fst (recognize_audio_content offsets_on [interim_text "hel"; interim_text "hello"])
  = Returned [ {| res.transcript := ""; res.alignment := [[]];
                  res.confidence := 1.0%float |} ].
Proof.
  apply (C7_interim_only offsets_on [interim_text "hel"; interim_text "hello"]).
  repeat constructor.
Defined.

(** C8: a response with a non-zero error code prints the error line and
    leaves the confirmed results, the alignment and the confidence as they
    were; the loop then goes on with the next response from those same
    accumulators. *)
Theorem C8_error_response {Time : Type} (t : bool) (acc : locals Time)
        (r : pb.StreamingRecognizeResponse Time)
        (rest : list (pb.StreamingRecognizeResponse Time)) :
  pb.code (pb.error r) <> 0 ->
  process_recognition t acc r
  = Returned (acc, [error_line (pb.code (pb.error r)) (pb.message (pb.error r))]) /\
  reduce t acc (r :: rest)
  = (fst (reduce t acc rest),
     error_line (pb.code (pb.error r)) (pb.message (pb.error r))
       :: snd (reduce t acc rest)).
Proof.
  intros Hcode.
  assert (E : process_recognition t acc r
              = Returned (acc, [error_line (pb.code (pb.error r))
                                           (pb.message (pb.error r))])).
  { unfold process_recognition.
    destruct (pb.code (pb.error r) =? 0) eqn:Ez; [|reflexivity].
    apply Z.eqb_eq in Ez. contradiction. }
  split; [exact E|].
  cbn [reduce]. rewrite E.
  destruct (reduce t acc rest) as [o out]. reflexivity.
Qed.

Definition error_response : pb.StreamingRecognizeResponse float :=
  {| pb.error := {| pb.code := 13; pb.message := "internal" |};
     pb.results := [] |}.

Lemma C8_error_response_witness :
  process_recognition false initial_locals error_response
  = Returned (initial_locals, [error_line 13 "internal"]) /\
  reduce false initial_locals [error_response; final_text "hello" 0.9%float]
  = (fst (reduce false initial_locals [final_text "hello" 0.9%float]),
     error_line 13 "internal"
       :: snd (reduce false initial_locals [final_text "hello" 0.9%float])).
Proof.
  apply (C8_error_response false initial_locals error_response
           [final_text "hello" 0.9%float]).
  cbn. discriminate.
Defined.

(** ** Only the first result and its first alternative count *)

(** A response cut down to what [results[0]] and [alternatives[0]] read. *)
Definition first_only {Time : Type} (r : pb.StreamingRecognizeResponse Time)
  : pb.StreamingRecognizeResponse Time :=
  {| pb.error := pb.error r;
     pb.results :=
       match pb.results r with
       | first :: _ =>
           [ {| pb.alternatives := firstn 1 (pb.alternatives first);
                pb.is_final := pb.is_final first |} ]
       | [] => []
       end |}.

Lemma process_first_only {Time : Type} (t : bool) (acc : locals Time)
      (r : pb.StreamingRecognizeResponse Time) :
  locals_after (process_recognition t acc (first_only r))
  = locals_after (process_recognition t acc r).
Proof.
  unfold process_recognition, first_only. cbn [pb.error pb.results].
  destruct (negb (pb.code (pb.error r) =? 0)); [reflexivity|].
  destruct (pb.results r) as [|first others]; [reflexivity|].
  cbn [pb.is_final]. destruct (pb.is_final first); [|reflexivity].
  unfold accumulate_final. cbn [pb.alternatives].
  destruct (pb.alternatives first) as [|alt alts]; reflexivity.
Qed.

Lemma reduce_first_only {Time : Type} (t : bool)
      (rs : list (pb.StreamingRecognizeResponse Time)) :
  forall acc : locals Time,
    fst (reduce t acc (map first_only rs)) = fst (reduce t acc rs).
Proof.
  induction rs as [|r rs IH]; intros acc; [reflexivity|].
  cbn [map]. rewrite !reduce_cons_fst, process_first_only.
  destruct (locals_after (process_recognition t acc r)) as [acc'|e];
    [apply IH | reflexivity].
Qed.

(** C10: what [recognize_audio_content] returns does not change when
    every response is cut down to its first result and that result to its
    first alternative; one turn of the loop leaves the same accumulators
    for the response and for the cut-down one; and a response whose first
    result is not final leaves the accumulators as they were, whatever its
    later results are. *)
Theorem C10_first_result_first_alternative {Time : Type} (s : Settings)
        (rs : list (pb.StreamingRecognizeResponse Time)) :
  fst (recognize_audio_content s (map first_only rs))
  = fst (recognize_audio_content s rs) /\
  (forall (t : bool) (acc : locals Time) (r : pb.StreamingRecognizeResponse Time),
      locals_after (process_recognition t acc (first_only r))
      = locals_after (process_recognition t acc r)) /\
  (forall (t : bool) (acc : locals Time) (e : pb.Status)
          (alts : list (pb.SpeechRecognitionAlternative Time))
          (others : list (pb.StreamingRecognitionResult Time)),
      locals_after
        (process_recognition t acc
           {| pb.error := e;
              pb.results := {| pb.alternatives := alts; pb.is_final := false |}
                              :: others |})
      = Returned acc).
Proof.
  split; [|split].
  - unfold recognize_audio_content.
    pose proof (reduce_first_only (time_offsets s) rs initial_locals) as E.
    destruct (reduce (time_offsets s) initial_locals (map first_only rs)) as [o1 out1].
    destruct (reduce (time_offsets s) initial_locals rs) as [o2 out2].
    cbn [fst] in E. subst o2. destruct o1; reflexivity.
  - intros t acc r. apply process_first_only.
  - intros t acc e alts others. unfold process_recognition.
    cbn [pb.error pb.results pb.is_final].
    destruct (negb (pb.code e =? 0)); reflexivity.
Qed.

(** A response whose first result is interim and whose second is final,
    and a final result with two alternatives. *)
Definition interim_then_final : pb.StreamingRecognizeResponse float :=
  {| pb.error := ok_status;
     pb.results :=
       [ {| pb.alternatives := [ {| pb.transcript := "hel"; pb.confidence := 0.5%float;
                                    pb.words := [] |} ];
            pb.is_final := false |};
         {| pb.alternatives := [ {| pb.transcript := "hello"; pb.confidence := 0.9%float;
                                    pb.words := [] |} ];
            pb.is_final := true |} ] |}.

Definition two_alternatives : pb.StreamingRecognizeResponse float :=
  {| pb.error := ok_status;
     pb.results :=
       [ {| pb.alternatives := [ {| pb.transcript := "hello"; pb.confidence := 0.9%float;
                                    pb.words := [] |};
                                 {| pb.transcript := "hollow"; pb.confidence := 0.2%float;
                                    pb.words := [] |} ];
            pb.is_final := true |} ] |}.

Example later_final_and_alternatives_ignored :
  fst (recognize_audio_content no_settings [interim_then_final; two_alternatives])
  = Returned [ {| res.transcript := "hello"; res.alignment := [[]];
                  res.confidence := 0.9%float |} ].
Proof. vm_compute. reflexivity. Qed.

(** * Concurrent pulls

    [__next__] runs its body under [with self.lock].  Threads are modelled
    by their position inside [__next__]; a schedule, the list of thread
    identifiers in the order in which they take a step, is an interleaving.
    One step is one access to the shared iterator: taking the lock, the
    read of [is_initial_request] together with the first statement of the
    builder it selects, the store to [is_initial_request], the load and
    the store of [data_index += ...], the comparison with [len(...)], and
    leaving the [with] block (which releases the lock, by return or by
    [raise]).  A thread that finds the lock taken stays where it is. *)

Definition tid : Type := nat.

Inductive position : Type :=
| Idle
| Acquiring
| Dispatch
| InitialBuilt (seen : RequestIterator) (req : StreamingRecognizeRequest)
| NormalSliced (seen : RequestIterator) (data : list byte)
| NormalLoaded (seen : RequestIterator) (data : list byte) (index : Z)
| NormalAdvanced (seen : RequestIterator) (data : list byte)
| Releasing (seen : RequestIterator) (o : outcome StreamingRecognizeRequest).

(** Positions between taking the lock and releasing it. *)
Definition in_critical (p : position) : bool :=
  match p with
  | Idle | Acquiring => false
  | _ => true
  end.

(** The lock holder, the shared iterator, where every thread is, and the
    finished calls in the order in which they left the [with] block: who
    called, the iterator the call found, and what the call gave. *)
Record world : Type := {
  lock : option tid;
  self : RequestIterator;
  threads : tid -> position;
  history : list (tid * pull_record)
}.

Definition upd (f : tid -> position) (t : tid) (p : position) : tid -> position :=
  fun t' => if Nat.eqb t' t then p else f t'.

Definition start (audio : Audio) (s : Settings) : world :=
  {| lock := None; self := init audio s; threads := fun _ => Idle; history := [] |}.

Definition at_position (w : world) (t : tid) (p : position) : world :=
  {| lock := lock w; self := self w; threads := upd (threads w) t p;
     history := history w |}.

(** One step of thread [t]. *)
Definition step (t : tid) (w : world) : world :=
  match threads w t with
  | Idle => at_position w t Acquiring
  | Acquiring =>
      match lock w with
      | None => {| lock := Some t; self := self w;
                   threads := upd (threads w) t Dispatch; history := history w |}
      | Some _ => w
      end
  | Dispatch =>
      if is_initial_request (self w)
      then at_position w t
             (InitialBuilt (self w)
                (build_configuration_request (audio_frame_rate (self w))
                                             (settings (self w))))
      else at_position w t
             (NormalSliced (self w)
                (py_slice (audio_samples (self w)) (data_index (self w))
                          (data_index (self w) + frame_samples_size (self w))))
  | InitialBuilt seen req =>
      {| lock := lock w; self := set_is_initial_request (self w) false;
         threads := upd (threads w) t (Releasing seen (Returned req));
         history := history w |}
  | NormalSliced seen data =>
      at_position w t (NormalLoaded seen data (data_index (self w)))
  | NormalLoaded seen data index =>
      {| lock := lock w;
         self := set_data_index (self w) (index + frame_samples_size (self w));
         threads := upd (threads w) t (NormalAdvanced seen data);
         history := history w |}
  | NormalAdvanced seen data =>
      at_position w t
        (Releasing seen
           (if data_index (self w) >=? len (audio_samples (self w))
            then Raised StopIteration
            else Returned (audio_content data)))
  | Releasing seen o =>
      {| lock := None; self := self w; threads := upd (threads w) t Idle;
         history := history w ++ [(t, (seen, o))] |}
  end.

(** The world after a schedule. *)
Definition run (schedule : list tid) (w : world) : world :=
  fold_left (fun w t => step t w) schedule w.

Example two_threads_interleaved :
  map (fun h => (fst h, gave_config (snd (snd h))))
      (history (run [0; 1; 0; 1; 1; 0; 0; 0; 1; 1; 1; 1; 1; 1; 0]%nat
                    (start two_frame_audio no_settings)))
  = [(0%nat, true); (1%nat, false)].
Proof. vm_compute. reflexivity. Qed.

(** ** The invariant of the lock *)

Lemma pulls_succ_snd (n : nat) (it : RequestIterator) :
  snd (pulls (S n) it) = snd (pulls n (snd (next it))).
Proof.
  cbn [pulls]. destruct (next it) as [o it']. cbn [snd].
  destruct (pulls n it') as [tr it'']. reflexivity.
Qed.

Lemma pulls_snoc (n : nat) :
  forall it : RequestIterator,
    fst (pulls (S n) it)
    = fst (pulls n it) ++ [(snd (pulls n it), fst (next (snd (pulls n it))))] /\
    snd (pulls (S n) it) = snd (next (snd (pulls n it))).
Proof.
  induction n as [|n IH]; intros it.
  - rewrite pulls_succ, pulls_succ_snd. cbn [pulls fst snd app]. split; reflexivity.
  - destruct (IH (snd (next it))) as [IH1 IH2]. split.
    + rewrite (pulls_succ (S n)), IH1, (pulls_succ n), (pulls_succ_snd n).
      reflexivity.
    + rewrite (pulls_succ_snd (S n)), IH2, (pulls_succ_snd n). reflexivity.
Qed.

Section Lock.
Variable it0 : RequestIterator.

(** What the lock holder's position says about the shared iterator [cur],
    when [S] is the iterator a single caller would have after the calls
    finished so far. *)
Definition holder_ok (S cur : RequestIterator) (p : position) : Prop :=
  match p with
  | Idle | Acquiring => False
  | Dispatch => cur = S
  | InitialBuilt seen req =>
      cur = S /\ seen = S /\ is_initial_request S = true /\
      req = build_configuration_request (audio_frame_rate S) (settings S)
  | NormalSliced seen data =>
      cur = S /\ seen = S /\ is_initial_request S = false /\
      data = py_slice (audio_samples S) (data_index S)
                      (data_index S + frame_samples_size S)
  | NormalLoaded seen data index =>
      cur = S /\ seen = S /\ is_initial_request S = false /\
      data = py_slice (audio_samples S) (data_index S)
                      (data_index S + frame_samples_size S) /\
      index = data_index S
  | NormalAdvanced seen data =>
      cur = set_data_index S (data_index S + frame_samples_size S) /\
      seen = S /\ is_initial_request S = false /\
      data = py_slice (audio_samples S) (data_index S)
                      (data_index S + frame_samples_size S)
  | Releasing seen o => seen = S /\ next S = (o, cur)
  end.

Definition lock_invariant (w : world) : Prop :=
  map snd (history w) = fst (pulls (List.length (history w)) it0) /\
  match lock w with
  | None =>
      self w = snd (pulls (List.length (history w)) it0) /\
      forall t, in_critical (threads w t) = false
  | Some h =>
      holder_ok (snd (pulls (List.length (history w)) it0)) (self w) (threads w h) /\
      forall t, t <> h -> in_critical (threads w t) = false
  end.

Lemma upd_same (f : tid -> position) (t : tid) (p : position) : upd f t p t = p.
Proof. unfold upd. now rewrite Nat.eqb_refl. Qed.

Lemma upd_other (f : tid -> position) (t t' : tid) (p : position) :
  t' <> t -> upd f t p t' = f t'.
Proof. intros H. unfold upd. destruct (Nat.eqb_spec t' t); [contradiction | reflexivity]. Qed.

(** A thread inside the [with] block holds the lock. *)
Lemma critical_holds_lock (w : world) (t : tid) :
  lock_invariant w -> in_critical (threads w t) = true -> lock w = Some t.
Proof.
  intros [_ Hl] Hc. destruct (lock w) as [h|].
  - destruct (Nat.eq_dec t h) as [->|Hne]; [reflexivity|].
    destruct Hl as [_ Ho]. rewrite (Ho t Hne) in Hc. discriminate.
  - destruct Hl as [_ Ho]. rewrite (Ho t) in Hc. discriminate.
Qed.

Lemma start_invariant : lock_invariant
  {| lock := None; self := it0; threads := fun _ => Idle; history := [] |}.
Proof. split; [reflexivity|]. cbn. split; reflexivity. Qed.
End Lock.

Ltac still_holding Hhist Hcrit Ho :=
  split; [exact Hhist|];
  cbn [lock self threads history at_position]; rewrite Hcrit;
  split; [rewrite upd_same; cbn [holder_ok]
         | let t' := fresh "t'" in
           let Hne := fresh "Hne" in
           intros t' Hne; rewrite upd_other by exact Hne; apply Ho; exact Hne].

(** Every step keeps the invariant. *)
Lemma step_invariant (it0 : RequestIterator) (t : tid) (w : world) :
  lock_invariant it0 w -> lock_invariant it0 (step t w).
Proof.
  intros Hinv. pose proof (critical_holds_lock it0 w t Hinv) as Hcrit.
  destruct Hinv as [Hhist Hl]. unfold step.
  destruct (threads w t) as [| | |seen req|seen data|seen data index|seen data|seen o]
    eqn:Ept.
  - (* Idle *)
    split; [exact Hhist|]. cbn [lock self threads history at_position].
    destruct (lock w) as [h|].
    + destruct Hl as [Hh Ho].
      assert (Hne : h <> t) by (intros ->; rewrite Ept in Hh; exact Hh).
      split; [rewrite upd_other by exact Hne; exact Hh|].
      intros t' Ht'. unfold upd. destruct (Nat.eqb t' t); [reflexivity | now apply Ho].
    + destruct Hl as [Hs Ho]. split; [exact Hs|].
      intros t'. unfold upd. destruct (Nat.eqb t' t); [reflexivity | apply Ho].
  - (* Acquiring *)
    destruct (lock w) as [h|] eqn:El.
    + split; [exact Hhist|]. rewrite El. exact Hl.
    + destruct Hl as [Hs Ho]. split; [exact Hhist|].
      cbn [lock self threads history]. split.
      * rewrite upd_same. exact Hs.
      * intros t' Hne. rewrite upd_other by exact Hne. apply Ho.
  - (* Dispatch *)
    specialize (Hcrit eq_refl). rewrite Hcrit in Hl. destruct Hl as [Hh Ho].
    rewrite Ept in Hh. cbn [holder_ok] in Hh.
    destruct (is_initial_request (self w)) eqn:Ei; still_holding Hhist Hcrit Ho;
      rewrite Hh in *; repeat split; assumption.
  - (* InitialBuilt *)
    specialize (Hcrit eq_refl). rewrite Hcrit in Hl. destruct Hl as [Hh Ho].
    rewrite Ept in Hh. cbn [holder_ok] in Hh. destruct Hh as (Hc & Hs & Hi & Hr).
    still_holding Hhist Hcrit Ho.
    split; [exact Hs|]. rewrite (next_initial _ Hi), Hc, Hr. reflexivity.
  - (* NormalSliced *)
    specialize (Hcrit eq_refl). rewrite Hcrit in Hl. destruct Hl as [Hh Ho].
    rewrite Ept in Hh. cbn [holder_ok] in Hh. destruct Hh as (Hc & Hs & Hi & Hd).
    still_holding Hhist Hcrit Ho.
    rewrite Hc. repeat split; assumption.
  - (* NormalLoaded *)
    specialize (Hcrit eq_refl). rewrite Hcrit in Hl. destruct Hl as [Hh Ho].
    rewrite Ept in Hh. cbn [holder_ok] in Hh.
    destruct Hh as (Hc & Hs & Hi & Hd & Hx).
    still_holding Hhist Hcrit Ho.
    rewrite Hc, Hx. repeat split; assumption.
  - (* NormalAdvanced *)
    specialize (Hcrit eq_refl). rewrite Hcrit in Hl. destruct Hl as [Hh Ho].
    rewrite Ept in Hh. cbn [holder_ok] in Hh. destruct Hh as (Hc & Hs & Hi & Hd).
    still_holding Hhist Hcrit Ho.
    split; [exact Hs|]. rewrite (next_streaming _ Hi). unfold _normal_request.
    rewrite Hc, Hd.
    destruct (data_index
                (set_data_index (snd (pulls (List.length (history w)) it0))
                   (data_index (snd (pulls (List.length (history w)) it0)) +
                    frame_samples_size (snd (pulls (List.length (history w)) it0))))
              >=? len (audio_samples
                (set_data_index (snd (pulls (List.length (history w)) it0))
                   (data_index (snd (pulls (List.length (history w)) it0)) +
                    frame_samples_size (snd (pulls (List.length (history w)) it0))))));
      reflexivity.
  - (* Releasing *)
    specialize (Hcrit eq_refl). rewrite Hcrit in Hl. destruct Hl as [Hh Ho].
    rewrite Ept in Hh. cbn [holder_ok] in Hh. destruct Hh as (Hs & Hn).
    destruct (pulls_snoc (List.length (history w)) it0) as [P1 P2].
    cbn [lock self threads history]. unfold lock_invariant.
    cbn [lock self threads history].
    rewrite length_app, Nat.add_1_r, map_app, Hhist, P1, P2, Hn, Hs.
    split; [reflexivity|]. split; [reflexivity|].
    intros t'. unfold upd. destruct (Nat.eqb_spec t' t); [reflexivity | now apply Ho].
Qed.

Lemma run_invariant (it0 : RequestIterator) (schedule : list tid) :
  forall w : world, lock_invariant it0 w -> lock_invariant it0 (run schedule w).
Proof.
  induction schedule as [|t schedule IH]; intros w Hinv; [exact Hinv|].
  cbn [run fold_left]. apply IH. apply step_invariant. exact Hinv.
Qed.

(** ** Any interleaving is a single-threaded session *)





(** Two threads, three finished calls: thread 0 gets the configuration
    request, thread 1 the first frame and thread 0 the second one. *)
Definition two_thread_schedule : list tid :=
  [0; 1; 0; 1; 1; 0; 0; 0; 1; 1; 1; 1; 1; 1; 0; 0; 0; 0; 0; 0; 0]%nat.

Example two_threads_three_pulls :
  map (fun h => (fst h, data_index (fst (snd h)), snd (snd h)))
      (history (run two_thread_schedule (start two_frame_audio no_settings)))
  = [(0%nat, 0, Returned (build_configuration_request 1000 no_settings));
     (1%nat, 0, Returned (audio_content (repeat x2a 400)));
     (0%nat, 400, Returned (audio_content (repeat x2a 400)))].
Proof. vm_compute. reflexivity. Qed.

(** * Further properties of the request iterator *)

Lemma pulls_length (n : nat) :
  forall it : RequestIterator, List.length (fst (pulls n it)) = n.
Proof.
  induction n as [|n IH]; intros it; [reflexivity|].
  rewrite pulls_succ. cbn [List.length]. now rewrite IH.
Qed.

Lemma trace_outcome_nth (audio : Audio) (s : Settings) (n k : nat)
      (o : outcome StreamingRecognizeRequest) :
  nth_error (map snd (fst (pulls n (init audio s)))) k = Some o ->
  exists it, nth_error (fst (pulls n (init audio s))) k = Some (it, o).
Proof.
  intros H. rewrite nth_error_map in H. unfold pull_record in *.
  destruct (nth_error _ k) as [[it o']|];
    cbn [option_map snd] in H; [|discriminate].
  injection H as ->. now exists it.
Qed.

(** X1: for a buffer that is not empty and a positive frame size, the loop
    over the iterator ends and the audio it has sent is the buffer without
    a last piece of 1 to [frame_samples_size] bytes, which is never sent. *)
Theorem X1_last_frame_never_sent (audio : Audio) (s : Settings) (fuel : nat) :
  0 < frame_samples_size (init audio s) ->
  1 <= len (samples audio) ->
  (emitted_frames (len (samples audio)) (frame_samples_size (init audio s)) + 1
   < fuel)%nat ->
  exists chunks tail,
    drain fuel (init audio s) = Some chunks /\
    samples audio = payloads chunks ++ tail /\
    1 <= len tail <= frame_samples_size (init audio s).
Proof.
  intros HF HL Hfuel.
  pose proof (drain_drops_last_frame audio s fuel) as H. cbv zeta in H.
  destruct (H HF HL Hfuel) as (chunks & Hd & _ & Hp & Hlt).
  pose proof (Z.mul_succ_div_gt (len (samples audio) - 1) _ HF) as H1.
  pose proof (Z.mul_div_le (len (samples audio) - 1) _ HF) as H2.
  assert (En : Z.of_nat (emitted_frames (len (samples audio))
                           (frame_samples_size (init audio s)))
               = (len (samples audio) - 1) / frame_samples_size (init audio s)).
  { unfold emitted_frames. rewrite Z2Nat.id; [reflexivity|].
    apply Z.div_pos; lia. }
  exists chunks,
    (skipn (Z.to_nat (Z.of_nat (emitted_frames (len (samples audio))
                                  (frame_samples_size (init audio s)))
                      * frame_samples_size (init audio s)))
           (samples audio)).
  split; [exact Hd|]. split.
  - rewrite Hp. symmetry. apply firstn_skipn.
  - rewrite En in *. unfold len in *. rewrite length_skipn. lia.
Qed.

Lemma X1_last_frame_never_sent_witness :
  exists chunks tail,
    drain 2 (init one_byte_audio no_settings) = Some chunks /\
    samples one_byte_audio = payloads chunks ++ tail /\
    1 <= len tail <= frame_samples_size (init one_byte_audio no_settings).
Proof.
  apply (X1_last_frame_never_sent one_byte_audio no_settings 2).
  - reflexivity.
  - cbn. lia.
  - cbn. lia.
Defined.

(** X2: every audio frame a pull returns has exactly [frame_samples_size]
    bytes, and the frame returned by the pull number [k] (the
    configuration pull being number 0) ends strictly before the end of the
    buffer: a shorter last frame is never returned. *)
Theorem X2_audio_frames_are_full (audio : Audio) (s : Settings) (n k : nat)
        (d : list byte) :
  0 <= frame_rate audio ->
  nth_error (map snd (fst (pulls n (init audio s)))) k
  = Some (Returned (audio_content d)) ->
  len d = frame_samples_size (init audio s) /\
  Z.of_nat k * frame_samples_size (init audio s) < len (samples audio).
Proof.
  intros Hrate Hk.
  pose proof (frame_samples_size_nonneg audio s Hrate) as HF.
  apply trace_outcome_nth in Hk. destruct Hk as [it Hk].
  apply pulls_init_nth in Hk. cbn [fst snd] in Hk.
  destruct Hk as [[_ E]|(k' & -> & _ & Ha & Hf & Hi & Ho)]; [discriminate|].
  symmetry in Ho. apply normal_request_audio in Ho; [|nia|lia].
  destruct Ho as (_ & Hl & Hlt).
  rewrite Hf in Hl. rewrite Ha, Hf, Hi in Hlt.
  split; [exact Hl | lia].
Qed.

Lemma X2_audio_frames_are_full_witness :
  len (repeat x2a 400) = frame_samples_size (init two_frame_audio no_settings) /\
  Z.of_nat 1 * frame_samples_size (init two_frame_audio no_settings)
  < len (samples two_frame_audio).
Proof.
  apply (X2_audio_frames_are_full two_frame_audio no_settings 4 1 (repeat x2a 400)).
  - cbn. lia.
  - vm_compute. reflexivity.
Defined.

(** X3: once a pull has raised, the exception was [StopIteration] and
    every later pull raises [StopIteration] too: an exhausted iterator
    stays exhausted (frame rate not negative). *)
Theorem X3_exhausted_stays_exhausted (audio : Audio) (s : Settings) (n i j : nat)
        (e : exn) :
  0 <= frame_rate audio ->
  (i <= j < n)%nat ->
  nth_error (map snd (fst (pulls n (init audio s)))) i = Some (Raised e) ->
  e = StopIteration /\
  nth_error (map snd (fst (pulls n (init audio s)))) j = Some (Raised StopIteration).
Proof.
  intros Hrate [Hij Hjn] Hi.
  pose proof (frame_samples_size_nonneg audio s Hrate) as HF.
  apply trace_outcome_nth in Hi. destruct Hi as [it1 Hi].
  apply pulls_init_nth in Hi. cbn [fst snd] in Hi.
  destruct Hi as [[_ E]|(i' & -> & _ & Ha1 & Hf1 & Hx1 & Ho1)]; [discriminate|].
  destruct (normal_request_cases it1) as [[Hge1 E1]|[_ E1]]; rewrite E1 in Ho1;
    [|discriminate].
  cbn [fst] in Ho1. injection Ho1 as ->. split; [reflexivity|].
  rewrite nth_error_map. unfold pull_record in *.
  destruct (nth_error _ j) as [[it2 o2]|] eqn:Hj.
  2:{ apply nth_error_None in Hj. rewrite pulls_length in Hj. lia. }
  cbn [option_map snd].
  apply pulls_init_nth in Hj. cbn [fst snd] in Hj.
  destruct Hj as [[-> _]|(j' & -> & _ & Ha2 & Hf2 & Hx2 & Ho2)]; [lia|].
  destruct (normal_request_cases it2) as [[_ E2]|[Hlt2 _]].
  - rewrite Ho2, E2. reflexivity.
  - exfalso. rewrite Ha1, Hf1, Hx1 in Hge1. rewrite Ha2, Hf2, Hx2 in Hlt2. nia.
Qed.

Lemma X3_exhausted_stays_exhausted_witness :
  StopIteration = StopIteration /\
  nth_error (map snd (fst (pulls 4 (init empty_audio no_settings)))) 3
  = Some (Raised StopIteration).
Proof.
  apply (X3_exhausted_stays_exhausted empty_audio no_settings 4 1 3 StopIteration).
  - cbn. lia.
  - lia.
  - reflexivity.
Defined.

(** The audio that the pulls of a trace have returned, in order. *)
Fixpoint sent (t : list pull_record) : list byte :=
  match t with
  | [] => []
  | (_, Returned (audio_content d)) :: r => d ++ sent r
  | _ :: r => sent r
  end.

Lemma sent_streaming (n : nat) :
  forall it : RequestIterator,
    is_initial_request it = false ->
    0 <= frame_samples_size it ->
    0 <= data_index it ->
    exists m : nat,
      sent (fst (pulls n it))
      = firstn (Z.to_nat (Z.of_nat m * frame_samples_size it))
               (skipn (Z.to_nat (data_index it)) (audio_samples it)) /\
      (m = O \/
       data_index it + Z.of_nat m * frame_samples_size it < len (audio_samples it)) /\
      (m <= n)%nat.
Proof.
  induction n as [|n IH]; intros it Hph HF Hidx.
  - exists O. split; [reflexivity|]. split; [now left | lia].
  - rewrite pulls_succ, next_streaming by assumption.
    destruct (IH (set_data_index it (data_index it + frame_samples_size it)))
      as (m & Hs & Hm & Hle); [exact Hph | exact HF | cbn; lia |].
    cbn [audio_samples frame_samples_size data_index set_data_index] in Hs, Hm.
    destruct (normal_request_cases it) as [[Hge E]|[Hlt E]]; rewrite E;
      cbn [fst snd sent].
    + exists O. split; [|split; [now left | lia]].
      rewrite Hs. destruct Hm as [->|Hm]; [reflexivity | exfalso; nia].
    + exists (S m). split; [|split; [right; nia | lia]].
      rewrite Hs, py_slice_inside by lia.
      assert (Hm0 : 0 <= Z.of_nat m * frame_samples_size it) by nia.
      replace (Z.to_nat (Z.of_nat (S m) * frame_samples_size it))
        with (Z.to_nat (frame_samples_size it)
              + Z.to_nat (Z.of_nat m * frame_samples_size it))%nat by nia.
      replace (Z.to_nat (data_index it + frame_samples_size it))
        with (Z.to_nat (frame_samples_size it) + Z.to_nat (data_index it))%nat
        by lia.
      rewrite <- skipn_skipn. now rewrite firstn_plus.
Qed.

(** X4: after any number of pulls of a fresh iterator (frame rate not
    negative) the audio returned so far is a prefix of the buffer made of
    whole frames: nothing is skipped, repeated or reordered, and fewer
    frames than pulls have been returned. *)
Theorem X4_sent_audio_is_a_prefix (audio : Audio) (s : Settings) (n : nat) :
  0 <= frame_rate audio ->
  exists m : nat,
    sent (fst (pulls n (init audio s)))
    = firstn (Z.to_nat (Z.of_nat m * frame_samples_size (init audio s)))
             (samples audio) /\
    (m = O \/ Z.of_nat m * frame_samples_size (init audio s) < len (samples audio)) /\
    (m <= n)%nat.
Proof.
  intros Hrate. pose proof (frame_samples_size_nonneg audio s Hrate) as HF.
  destruct n as [|n].
  - exists O. split; [reflexivity|]. split; [now left | lia].
  - rewrite pulls_succ, next_initial by reflexivity.
    cbn [fst snd sent build_configuration_request].
    destruct (sent_streaming n (set_is_initial_request (init audio s) false))
      as (m & Hs & Hm & Hle); [reflexivity | exact HF | cbn; lia |].
    exists m. split; [exact Hs|]. split; [|lia].
    destruct Hm as [Hm|Hm]; [left; exact Hm | right; exact Hm].
Qed.

Lemma X4_sent_audio_is_a_prefix_witness :
  exists m : nat,
    sent (fst (pulls 4 (init two_frame_audio no_settings)))
    = firstn (Z.to_nat (Z.of_nat m * frame_samples_size (init two_frame_audio no_settings)))
             (samples two_frame_audio) /\
    (m = O \/ Z.of_nat m * frame_samples_size (init two_frame_audio no_settings)
              < len (samples two_frame_audio)) /\
    (m <= 4)%nat.
Proof.
  apply (X4_sent_audio_is_a_prefix two_frame_audio no_settings 4).
  cbn. lia.
Defined.

(** X5: the first request of a session is a configuration request that
    carries the frame rate of the audio, the three flags of the settings
    and one configuration field per entry of the timeouts map, with the
    same keys and values in the same order. *)
Theorem X5_configuration_carries_settings (audio : Audio) (s : Settings) :
  exists c,
    fst (next (init audio s)) = Returned (streaming_config c) /\
    sample_rate_hertz (config c) = frame_rate audio /\
    enable_word_time_offsets (config c) = time_offsets s /\
    cfg_single_utterance c = single_utterance s /\
    cfg_interim_results c = interim_results s /\
    map (fun f => (cf_key f, cf_value f)) (config_fields (config c))
    = timeouts_map s.
Proof.
  eexists. split; [reflexivity|].
  cbn [config sample_rate_hertz enable_word_time_offsets cfg_single_utterance
       cfg_interim_results config_fields settings audio_frame_rate init].
  repeat (split; [reflexivity|]).
  induction (timeouts_map s) as [|[k v] l IH]; [reflexivity|].
  cbn [map fst snd cf_key cf_value]. now rewrite IH.
Qed.

(** * Further properties of the aggregator *)

(** The responses on which a turn of the loop raises: no error code, a
    first result that is final, and no alternative in it, so that
    [first.alternatives[0]] fails. *)
Definition breaks {Time : Type} (r : pb.StreamingRecognizeResponse Time) : bool :=
  (pb.code (pb.error r) =? 0) &&
  match pb.results r with
  | first :: _ =>
      pb.is_final first &&
      match pb.alternatives first with
      | [] => true
      | _ :: _ => false
      end
  | [] => false
  end.

(** The alternative a response adds to the accumulators, if any. *)
Definition counted {Time : Type} (r : pb.StreamingRecognizeResponse Time)
  : option (pb.SpeechRecognitionAlternative Time) :=
  if negb (pb.code (pb.error r) =? 0) then None
  else match pb.results r with
       | first :: _ =>
           if pb.is_final first then hd_error (pb.alternatives first) else None
       | [] => None
       end.

(** The accumulators after a final result with first alternative [alt]. *)
Definition absorb {Time : Type} (t : bool) (acc : locals Time)
           (alt : pb.SpeechRecognitionAlternative Time) : locals Time :=
  let acc' :=
    if t
    then fold_left add_word (pb.words alt) acc
    else {| confirmed_results := confirmed_results acc ++ [pb.transcript alt];
            alignment := alignment acc;
            confidence := confidence acc |} in
  {| confirmed_results := confirmed_results acc';
     alignment := alignment acc';
     confidence := py_min (confidence acc') (pb.confidence alt) |}.

Definition absorb_counted {Time : Type} (t : bool) (acc : locals Time)
           (r : pb.StreamingRecognizeResponse Time) : locals Time :=
  match counted r with
  | Some alt => absorb t acc alt
  | None => acc
  end.

(** The first alternatives of the responses that count, in order. *)
Definition alternatives_counted {Time : Type}
           (rs : list (pb.StreamingRecognizeResponse Time))
  : list (pb.SpeechRecognitionAlternative Time) :=
  flat_map (fun r => match counted r with Some alt => [alt] | None => [] end) rs.

(** What one alternative adds to the confirmed results and to the
    alignment. *)
Definition contribution {Time : Type} (t : bool)
           (alt : pb.SpeechRecognitionAlternative Time) : list string :=
  if t then map pb.word (filter spoken (pb.words alt)) else [pb.transcript alt].

Definition aligned {Time : Type} (alt : pb.SpeechRecognitionAlternative Time)
  : list (list Time) :=
  map time_pair (filter spoken (pb.words alt)).

Lemma process_spec {Time : Type} (t : bool) (acc : locals Time)
      (r : pb.StreamingRecognizeResponse Time) :
  locals_after (process_recognition t acc r)
  = if breaks r then Raised IndexError else Returned (absorb_counted t acc r).
Proof.
  unfold process_recognition, breaks, absorb_counted, counted, accumulate_final.
  destruct (pb.code (pb.error r) =? 0); cbn [negb andb]; [|reflexivity].
  destruct (pb.results r) as [|first others]; [reflexivity|].
  destruct (pb.is_final first); cbn [andb]; [|reflexivity].
  destruct (pb.alternatives first) as [|alt alts]; reflexivity.
Qed.

Lemma reduce_spec {Time : Type} (t : bool)
      (rs : list (pb.StreamingRecognizeResponse Time)) :
  forall acc : locals Time,
    fst (reduce t acc rs)
    = if existsb breaks rs then Raised IndexError
      else Returned (fold_left (absorb_counted t) rs acc).
Proof.
  induction rs as [|r rs IH]; intros acc; [reflexivity|].
  rewrite reduce_cons_fst, process_spec. cbn [existsb fold_left].
  destruct (breaks r); cbn [orb]; [reflexivity | apply IH].
Qed.

Lemma fold_absorb_counted {Time : Type} (t : bool)
      (rs : list (pb.StreamingRecognizeResponse Time)) :
  forall acc : locals Time,
    fold_left (absorb_counted t) rs acc
    = fold_left (absorb t) (alternatives_counted rs) acc.
Proof.
  induction rs as [|r rs IH]; intros acc; [reflexivity|].
  cbn [fold_left alternatives_counted flat_map]. rewrite fold_left_app, IH.
  unfold absorb_counted at 1. destruct (counted r); reflexivity.
Qed.

Lemma recognize_locals {Time : Type} (s : Settings)
      (rs : list (pb.StreamingRecognizeResponse Time)) :
  fst (recognize_audio_content s rs)
  = if existsb breaks rs then Raised IndexError
    else Returned (build_final_results (time_offsets s)
                     (fold_left (absorb (time_offsets s)) (alternatives_counted rs)
                                initial_locals)).
Proof.
  unfold recognize_audio_content.
  pose proof (reduce_spec (time_offsets s) rs initial_locals) as E.
  destruct (reduce (time_offsets s) initial_locals rs) as [o out].
  cbn [fst] in E. subst o.
  destruct (existsb breaks rs); [reflexivity|].
  cbn [fst]. now rewrite fold_absorb_counted.
Qed.

(** X6: [recognize_audio_content] raises [IndexError] exactly when some
    response without error code has a final first result with no
    alternative, wherever it is in the stream and whatever was accumulated
    before it; in every other case it returns a list of exactly one
    result. *)
Theorem X6_raises_on_final_without_alternative {Time : Type} (s : Settings)
        (rs : list (pb.StreamingRecognizeResponse Time)) :
  (existsb breaks rs = true ->
   fst (recognize_audio_content s rs) = Raised IndexError) /\
  (existsb breaks rs = false ->
   exists d, fst (recognize_audio_content s rs) = Returned [d]).
Proof.
  rewrite recognize_locals. split; intros H; rewrite H; [reflexivity|].
  unfold build_final_results. eexists. reflexivity.
Qed.

Lemma absorb_fields {Time : Type} (t : bool) (acc : locals Time)
      (alt : pb.SpeechRecognitionAlternative Time) :
  confirmed_results (absorb t acc alt) = confirmed_results acc ++ contribution t alt /\
  alignment (absorb t acc alt)
  = alignment acc ++ (if t then aligned alt else []) /\
  confidence (absorb t acc alt) = py_min (confidence acc) (pb.confidence alt).
Proof.
  unfold absorb, contribution, aligned. destruct t.
  - rewrite add_words_spec. cbn [confirmed_results alignment confidence].
    repeat split.
  - cbn [confirmed_results alignment confidence]. rewrite app_nil_r.
    repeat split.
Qed.

Lemma fold_absorb_fields {Time : Type} (t : bool)
      (alts : list (pb.SpeechRecognitionAlternative Time)) :
  forall acc : locals Time,
    confirmed_results (fold_left (absorb t) alts acc)
    = confirmed_results acc ++ flat_map (contribution t) alts /\
    alignment (fold_left (absorb t) alts acc)
    = alignment acc ++ (if t then flat_map aligned alts else []) /\
    confidence (fold_left (absorb t) alts acc)
    = fold_left py_min (map pb.confidence alts) (confidence acc).
Proof.
  induction alts as [|alt alts IH]; intros acc.
  - cbn [fold_left flat_map map]. rewrite app_nil_r.
    destruct t; rewrite ?app_nil_r; repeat split.
  - cbn [fold_left flat_map map].
    destruct (IH (absorb t acc alt)) as (H1 & H2 & H3).
    destruct (absorb_fields t acc alt) as (A1 & A2 & A3).
    rewrite H1, H2, H3, A1, A2, A3.
    destruct t; rewrite <- ?app_assoc, ?app_nil_r; repeat split.
Qed.

(** ** Two final results *)

(** A response that holds no final result for the loop: it has an error
    code, or it has no result, or its first result is interim. *)
Definition no_final_result {Time : Type} (r : pb.StreamingRecognizeResponse Time)
  : bool :=
  negb (pb.code (pb.error r) =? 0) ||
  match pb.results r with
  | first :: _ => negb (pb.is_final first)
  | [] => true
  end.

(** A response without error code whose first result is final and has
    [alt] as its first alternative; the message, the other alternatives
    and the other results are whatever they are. *)
Definition final_response {Time : Type} (message : string)
           (alt : pb.SpeechRecognitionAlternative Time)
           (alts : list (pb.SpeechRecognitionAlternative Time))
           (others : list (pb.StreamingRecognitionResult Time))
  : pb.StreamingRecognizeResponse Time :=
  {| pb.error := {| pb.code := 0; pb.message := message |};
     pb.results := {| pb.alternatives := alt :: alts; pb.is_final := true |}
                     :: others |}.

Lemma no_final_result_counted {Time : Type} (r : pb.StreamingRecognizeResponse Time) :
  no_final_result r = true -> counted r = None /\ breaks r = false.
Proof.
  unfold no_final_result, counted, breaks.
  destruct (pb.code (pb.error r) =? 0); cbn [negb orb andb];
    [|split; reflexivity].
  destruct (pb.results r) as [|first others]; [split; reflexivity|].
  destruct (pb.is_final first); cbn [negb andb];
    [discriminate | split; reflexivity].
Qed.

Lemma alternatives_counted_app {Time : Type}
      (l1 l2 : list (pb.StreamingRecognizeResponse Time)) :
  alternatives_counted (l1 ++ l2) = alternatives_counted l1 ++ alternatives_counted l2.
Proof. unfold alternatives_counted. apply flat_map_app. Qed.

Lemma no_final_results {Time : Type} (l : list (pb.StreamingRecognizeResponse Time)) :
  forallb no_final_result l = true ->
  existsb breaks l = false /\ alternatives_counted l = [].
Proof.
  induction l as [|r l IH]; intros H; [split; reflexivity|].
  cbn [forallb] in H. apply andb_prop in H. destruct H as [Hr Hl].
  destruct (no_final_result_counted r Hr) as [Hc Hb].
  destruct (IH Hl) as [IH1 IH2].
  cbn [existsb]. rewrite Hb, IH1.
  change (r :: l) with ([r] ++ l). rewrite alternatives_counted_app, IH2.
  unfold alternatives_counted. cbn [flat_map]. rewrite Hc.
  split; reflexivity.
Qed.

(** A stream whose only final results are those of [ra] and [rb], in this
    order, is reduced like the two of them alone. *)
Lemma two_final_results {Time : Type} (s : Settings)
      (pre mid post : list (pb.StreamingRecognizeResponse Time))
      (ma mb : string) (alta altb : pb.SpeechRecognitionAlternative Time)
      (altsa altsb : list (pb.SpeechRecognitionAlternative Time))
      (othersa othersb : list (pb.StreamingRecognitionResult Time)) :
  forallb no_final_result pre = true ->
  forallb no_final_result mid = true ->
  forallb no_final_result post = true ->
  fst (recognize_audio_content s
         (pre ++ final_response ma alta altsa othersa
              :: mid ++ final_response mb altb altsb othersb :: post))
  = Returned (build_final_results (time_offsets s)
                (fold_left (absorb (time_offsets s)) [alta; altb] initial_locals)).
Proof.
  intros Hpre Hmid Hpost.
  destruct (no_final_results pre Hpre) as [B1 A1].
  destruct (no_final_results mid Hmid) as [B2 A2].
  destruct (no_final_results post Hpost) as [B3 A3].
  rewrite recognize_locals.
  rewrite existsb_app. cbn [existsb]. rewrite existsb_app. cbn [existsb].
  rewrite B1, B2, B3.
  change (breaks (final_response ma alta altsa othersa)) with false.
  change (breaks (final_response mb altb altsb othersb)) with false.
  cbn [orb].
  rewrite alternatives_counted_app, A1.
  change (final_response ma alta altsa othersa
            :: mid ++ final_response mb altb altsb othersb :: post)
    with ([final_response ma alta altsa othersa]
            ++ mid ++ [final_response mb altb altsb othersb] ++ post).
  rewrite !alternatives_counted_app, A2, A3.
  reflexivity.
Qed.

(** C5: with time offsets disabled, a stream of responses in which
    exactly two hold a final result, the first one with first alternative
    "hello" of confidence 0.9 and the second one with first alternative
    "world" of confidence 0.8, whatever the responses before, between and
    after them that hold no final result, gives the one result with
    transcript "hello world", alignment [[]] and confidence 0.8.  The
    confidence is the smaller of the two and not the last one: with the
    two final results in the other order the transcript is "world hello"
    and the confidence is 0.8 again. *)
Theorem C5_hello_world {Time : Type} (s : Settings)
        (pre mid post : list (pb.StreamingRecognizeResponse Time))
        (m1 m2 : string) (ws1 ws2 : list (pb.WordInfo Time))
        (alts1 alts2 : list (pb.SpeechRecognitionAlternative Time))
        (others1 others2 : list (pb.StreamingRecognitionResult Time)) :
  time_offsets s = false ->
  forallb no_final_result pre = true ->
  forallb no_final_result mid = true ->
  forallb no_final_result post = true ->
  let hello := {| pb.transcript := "hello"; pb.confidence := 0.9%float;
                  pb.words := ws1 |} in
  let world := {| pb.transcript := "world"; pb.confidence := 0.8%float;
                  pb.words := ws2 |} in
  fst (recognize_audio_content s
         (pre ++ final_response m1 hello alts1 others1
              :: mid ++ final_response m2 world alts2 others2 :: post))
  = Returned [ {| res.transcript := "hello world"; res.alignment := [[]];
                  res.confidence := 0.8%float |} ] /\
  fst (recognize_audio_content s
         (pre ++ final_response m2 world alts2 others2
              :: mid ++ final_response m1 hello alts1 others1 :: post))
  = Returned [ {| res.transcript := "world hello"; res.alignment := [[]];
                  res.confidence := 0.8%float |} ].
Proof.
  intros Hoff Hpre Hmid Hpost hello world.
  rewrite !two_final_results by assumption. rewrite Hoff.
  split; vm_compute; reflexivity.
Qed.

Lemma C5_hello_world_witness :
  fst (recognize_audio_content no_settings
         ([interim_text "hel"]
            ++ final_response "" {| pb.transcript := "hello";
                                    pb.confidence := 0.9%float;
                                    pb.words := hi_eps_there |} [] []
            :: [error_response; interim_text "wor"]
            ++ final_response "" {| pb.transcript := "world";
                                    pb.confidence := 0.8%float;
                                    pb.words := [] |} [] []
            :: [error_response]))
  = Returned [ {| res.transcript := "hello world"; res.alignment := [[]];
                  res.confidence := 0.8%float |} ] /\
  fst (recognize_audio_content no_settings
         ([interim_text "hel"]
            ++ final_response "" {| pb.transcript := "world";
                                    pb.confidence := 0.8%float;
                                    pb.words := [] |} [] []
            :: [error_response; interim_text "wor"]
            ++ final_response "" {| pb.transcript := "hello";
                                    pb.confidence := 0.9%float;
                                    pb.words := hi_eps_there |} [] []
            :: [error_response]))
  = Returned [ {| res.transcript := "world hello"; res.alignment := [[]];
                  res.confidence := 0.8%float |} ].
Proof.
  apply (C5_hello_world no_settings [interim_text "hel"]
           [error_response; interim_text "wor"] [error_response]
           "" "" hi_eps_there [] [] [] [] []);
    reflexivity.
Defined.

(** X7: when no response makes the loop raise, the returned result is a
    function of the first alternatives of the responses that count (no
    error code, first result final), in order: the transcript joins their
    transcripts (or, with time offsets, their words other than "<eps>")
    with one space, the alignment is the list of the (start, end) pairs of
    those words when time offsets are enabled and there is such a word and
    [[]] otherwise, and the confidence is 1.0 folded with Python's [min]
    over their confidences.  Responses with an error code, without results
    or with an interim first result change nothing. *)
Theorem X7_result_from_counted_alternatives {Time : Type} (s : Settings)
        (rs : list (pb.StreamingRecognizeResponse Time)) :
  existsb breaks rs = false ->
  fst (recognize_audio_content s rs)
  = Returned
      [ {| res.transcript :=
             String.concat " " (flat_map (contribution (time_offsets s))
                                         (alternatives_counted rs));
           res.alignment :=
             if time_offsets s
             then match flat_map aligned (alternatives_counted rs) with
                  | [] => [[]]
                  | p :: ps => p :: ps
                  end
             else [[]];
           res.confidence :=
             fold_left py_min (map pb.confidence (alternatives_counted rs))
                       1.0%float |} ].
Proof.
  intros H. rewrite recognize_locals, H. unfold build_final_results.
  destruct (fold_absorb_fields (time_offsets s) (alternatives_counted rs)
              initial_locals) as (H1 & H2 & H3).
  rewrite H1, H2, H3. cbn [initial_locals confirmed_results alignment confidence app].
  destruct (time_offsets s); cbn [andb]; [|reflexivity].
  destruct (flat_map aligned (alternatives_counted rs)); reflexivity.
Qed.

Definition mixed_responses : list (pb.StreamingRecognizeResponse float) :=
  [interim_text "hel"; final_text "hello" 0.9%float; error_response;
   final_words hi_eps_there "hi there" 0.8%float].

Lemma X7_result_from_counted_alternatives_witness :
  fst (recognize_audio_content offsets_on mixed_responses)
  = Returned
      [ {| res.transcript :=
             String.concat " " (flat_map (contribution (time_offsets offsets_on))
                                         (alternatives_counted mixed_responses));
           res.alignment :=
             if time_offsets offsets_on
             then match flat_map aligned (alternatives_counted mixed_responses) with
                  | [] => [[]]
                  | p :: ps => p :: ps
                  end
             else [[]];
           res.confidence :=
             fold_left py_min (map pb.confidence (alternatives_counted mixed_responses))
                       1.0%float |} ].
Proof.
  apply (X7_result_from_counted_alternatives offsets_on mixed_responses).
  reflexivity.
Defined.

Lemma fold_py_min_in (l : list float) :
  forall a : float, fold_left py_min l a = a \/ In (fold_left py_min l a) l.
Proof.
  induction l as [|b l IH]; intros a; [now left|].
  cbn [fold_left]. destruct (IH (py_min a b)) as [E|Hin].
  - rewrite E. unfold py_min. destruct (PrimFloat.ltb b a);
      [right; now left | now left].
  - right. now right.
Qed.

(** X8: the confidence of the returned result is either the initial 1.0
    or the confidence of the first alternative of one of the responses
    that count: the reduction with [min] never reports a value that no
    final result carried. *)
Theorem X8_confidence_is_one_or_reported {Time : Type} (s : Settings)
        (rs : list (pb.StreamingRecognizeResponse Time)) :
  existsb breaks rs = false ->
  exists d,
    fst (recognize_audio_content s rs) = Returned [d] /\
    (res.confidence d = 1.0%float \/
     In (res.confidence d) (map pb.confidence (alternatives_counted rs))).
Proof.
  intros H. rewrite recognize_locals, H. unfold build_final_results.
  eexists. split; [reflexivity|]. cbn [res.confidence].
  destruct (fold_absorb_fields (time_offsets s) (alternatives_counted rs)
              initial_locals) as (_ & _ & H3).
  rewrite H3. cbn [initial_locals confidence]. apply fold_py_min_in.
Qed.

Lemma X8_confidence_is_one_or_reported_witness :
  exists d,
    fst (recognize_audio_content offsets_on mixed_responses) = Returned [d] /\
    (res.confidence d = 1.0%float \/
     In (res.confidence d) (map pb.confidence (alternatives_counted mixed_responses))).
Proof.
  apply (X8_confidence_is_one_or_reported offsets_on mixed_responses).
  reflexivity.
Defined.

(** The words the loop over words keeps, over the whole stream: the
    words other than "<eps>" of the first alternatives of the responses
    that count, in the order of the responses and, within a response, of
    its word list. *)
Definition kept_words {Time : Type} (rs : list (pb.StreamingRecognizeResponse Time))
  : list (pb.WordInfo Time) :=
  flat_map (fun alt => filter spoken (pb.words alt)) (alternatives_counted rs).

Lemma flat_map_map {A B C : Type} (f : B -> C) (g : A -> list B) (l : list A) :
  flat_map (fun a => map f (g a)) l = map f (flat_map g l).
Proof.
  induction l as [|a l IH]; [reflexivity|].
  cbn [flat_map]. now rewrite map_app, IH.
Qed.

Lemma kept_words_spec {Time : Type} (rs : list (pb.StreamingRecognizeResponse Time))
      (w : pb.WordInfo Time) :
  In w (kept_words rs) <->
  exists r alt, In r rs /\ counted r = Some alt /\
                In w (pb.words alt) /\ pb.word w <> "<eps>"%string.
Proof.
  unfold kept_words, alternatives_counted. rewrite in_flat_map. split.
  - intros (alt & Halt & Hw). apply in_flat_map in Halt.
    destruct Halt as (r & Hr & Hc). apply filter_In in Hw. destruct Hw as [Hw Hs].
    exists r, alt. split; [exact Hr|].
    destruct (counted r) as [alt'|]; [|contradiction].
    destruct Hc as [->|[]]. split; [reflexivity|]. split; [exact Hw|].
    unfold spoken in Hs. apply negb_true_iff in Hs.
    now apply String.eqb_neq in Hs.
  - intros (r & alt & Hr & Hc & Hw & Hs). exists alt. split.
    + apply in_flat_map. exists r. split; [exact Hr|]. rewrite Hc. now left.
    + apply filter_In. split; [exact Hw|].
      unfold spoken. apply negb_true_iff. now apply String.eqb_neq.
Qed.

(** X9: with time offsets enabled and no response that makes the loop
    raise, the transcript and the alignment are read off one and the same
    list of words, the kept words of the stream: the transcript is their
    texts joined with one space, and the alignment has, for each of them
    in the same order, the entry [[start_time, end_time]] of that very
    word; when no word is kept the transcript is empty and the alignment
    is the placeholder [[]].  A word is kept exactly when it is a word
    other than "<eps>" of the first alternative of a response that
    counts. *)
Theorem X9_one_time_pair_per_word {Time : Type} (s : Settings)
        (rs : list (pb.StreamingRecognizeResponse Time)) :
  time_offsets s = true ->
  existsb breaks rs = false ->
  fst (recognize_audio_content s rs)
  = Returned
      [ {| res.transcript := String.concat " " (map pb.word (kept_words rs));
           res.alignment :=
             match kept_words rs with
             | [] => [[]]
             | _ :: _ =>
                 map (fun w => [pb.start_time w; pb.end_time w]) (kept_words rs)
             end;
           res.confidence :=
             fold_left py_min (map pb.confidence (alternatives_counted rs))
                       1.0%float |} ] /\
  (forall w, In w (kept_words rs) <->
             exists r alt, In r rs /\ counted r = Some alt /\
                           In w (pb.words alt) /\ pb.word w <> "<eps>"%string).
Proof.
  intros Hon H. split; [|intros w; apply kept_words_spec].
  rewrite recognize_locals, H, Hon. unfold build_final_results.
  destruct (fold_absorb_fields true (alternatives_counted rs) initial_locals)
    as (H1 & H2 & H3).
  cbn [initial_locals confirmed_results alignment confidence app] in H1, H2, H3.
  rewrite H1, H2, H3. unfold contribution, aligned, time_pair.
  rewrite !flat_map_map. fold (kept_words rs). cbn [andb].
  destruct (kept_words rs) as [|w ws]; reflexivity.
Qed.

Lemma X9_one_time_pair_per_word_witness :
  fst (recognize_audio_content offsets_on mixed_responses)
  = Returned
      [ {| res.transcript := "hi there";
           res.alignment := [[0.0%float; 0.5%float]; [0.5%float; 1.0%float]];
           res.confidence := 0.8%float |} ] /\
  map pb.word (kept_words mixed_responses) = ["hi"; "there"]%string.
Proof.
  destruct (X9_one_time_pair_per_word offsets_on mixed_responses eq_refl eq_refl)
    as [E _].
  split; [rewrite E; vm_compute; reflexivity | reflexivity].
Defined.

(** * Further properties of the lock *)

(** An upper bound on the steps a thread still needs before it leaves
    the [with] block. *)
Definition steps_left (p : position) : nat :=
  match p with
  | Idle | Acquiring => 0
  | Dispatch => 5
  | NormalSliced _ _ => 4
  | NormalLoaded _ _ _ => 3
  | InitialBuilt _ _ => 2
  | NormalAdvanced _ _ => 2
  | Releasing _ _ => 1
  end.

Lemma steps_left_critical (p : position) :
  in_critical p = true -> (1 <= steps_left p <= 5)%nat.
Proof. destruct p; cbn; intros H; try discriminate; lia. Qed.

(** A step of a thread inside the [with] block either releases the lock
    or leaves the lock alone and brings the thread nearer to the end. *)
Lemma holder_step (t : tid) (w : world) :
  in_critical (threads w t) = true ->
  lock (step t w) = None \/
  (lock (step t w) = lock w /\
   in_critical (threads (step t w) t) = true /\
   (steps_left (threads (step t w) t) < steps_left (threads w t))%nat).
Proof.
  intros Hc. unfold step.
  destruct (threads w t) as [| | |seen req|seen data|seen data index|seen data|seen o];
    try discriminate.
  - right. destruct (is_initial_request (self w));
      cbn [lock threads at_position]; rewrite upd_same; cbn; repeat split; lia.
  - right. cbn [lock threads]. rewrite upd_same. cbn. repeat split; lia.
  - right. cbn [lock threads at_position]. rewrite upd_same. cbn. repeat split; lia.
  - right. cbn [lock threads]. rewrite upd_same. cbn. repeat split; lia.
  - right. cbn [lock threads at_position]. rewrite upd_same. cbn. repeat split; lia.
  - left. reflexivity.
Qed.

(** While a thread holds the lock, a step of another thread changes
    neither the lock nor the holder's position. *)
Lemma other_step (it0 : RequestIterator) (t u : tid) (w : world) :
  lock_invariant it0 w -> lock w = Some t -> u <> t ->
  lock (step u w) = Some t /\ threads (step u w) t = threads w t.
Proof.
  intros [_ Hl] Hlock Hne. rewrite Hlock in Hl. destruct Hl as [_ Ho].
  specialize (Ho u Hne). unfold step.
  destruct (threads w u); try discriminate.
  - cbn [lock threads at_position]. split; [exact Hlock|].
    apply upd_other. intros E. apply Hne. now symmetry.
  - rewrite Hlock. split; [exact Hlock | reflexivity].
Qed.

Lemma holder_critical (it0 : RequestIterator) (t : tid) (w : world) :
  lock_invariant it0 w -> lock w = Some t -> in_critical (threads w t) = true.
Proof.
  intros [_ Hl] Hlock. rewrite Hlock in Hl. destruct Hl as [Hh _].
  destruct (threads w t); cbn [holder_ok] in Hh; try contradiction; reflexivity.
Qed.

Lemma holder_releases (it0 : RequestIterator) (t : tid) (rest : list tid) :
  forall w : world,
    lock_invariant it0 w ->
    lock w = Some t ->
    (steps_left (threads w t) <= count_occ Nat.eq_dec rest t)%nat ->
    exists pre post, rest = pre ++ post /\ lock (run pre w) = None.
Proof.
  induction rest as [|u rest IH]; intros w Hinv Hlock Hleft.
  - pose proof (steps_left_critical _ (holder_critical it0 t w Hinv Hlock)).
    cbn [count_occ] in Hleft. lia.
  - destruct (Nat.eq_dec u t) as [->|Hne].
    + rewrite count_occ_cons_eq in Hleft by reflexivity.
      destruct (holder_step t w (holder_critical it0 t w Hinv Hlock))
        as [Hfree|(Hsame & _ & Hless)].
      * exists [t], rest. split; [reflexivity | exact Hfree].
      * destruct (IH (step t w)) as (pre & post & -> & Hpre).
        -- apply step_invariant. exact Hinv.
        -- rewrite Hsame. exact Hlock.
        -- apply Nat.lt_succ_r. eapply Nat.lt_le_trans; [exact Hless | exact Hleft].
        -- exists (t :: pre), post. split; [reflexivity | exact Hpre].
    + rewrite count_occ_cons_neq in Hleft by exact Hne.
      destruct (other_step it0 t u w Hinv Hlock Hne) as [Hl' Hp'].
      destruct (IH (step u w)) as (pre & post & -> & Hpre).
      * apply step_invariant. exact Hinv.
      * exact Hl'.
      * rewrite Hp'. exact Hleft.
      * exists (u :: pre), post. split; [reflexivity | exact Hpre].
Qed.

(** X10: whenever a thread holds the lock, the lock has been released by
    the time that thread has taken five more steps, whatever the other
    threads do in between; this includes the calls that end by raising
    [StopIteration], since leaving the [with] block releases the lock. *)
Theorem X10_lock_is_released (audio : Audio) (s : Settings)
        (schedule rest : list tid) (t : tid) :
  lock (run schedule (start audio s)) = Some t ->
  (5 <= count_occ Nat.eq_dec rest t)%nat ->
  exists pre post,
    rest = pre ++ post /\
    lock (run pre (run schedule (start audio s))) = None.
Proof.
  intros Hlock Hcount.
  pose proof (run_invariant (init audio s) schedule (start audio s)
                (start_invariant (init audio s))) as Hinv.
  apply (holder_releases (init audio s) t rest _ Hinv Hlock).
  pose proof (steps_left_critical _
                (holder_critical (init audio s) t _ Hinv Hlock)).
  lia.
Qed.

Lemma X10_lock_is_released_witness :
  exists pre post,
    [1; 0; 0; 1; 0; 0; 1; 0]%nat = pre ++ post /\
    lock (run pre (run [0; 1; 0]%nat (start empty_audio no_settings))) = None.
Proof.
  apply (X10_lock_is_released empty_audio no_settings [0; 1; 0]%nat
           [1; 0; 0; 1; 0; 0; 1; 0]%nat 0%nat).
  - reflexivity.
  - vm_compute. lia.
Defined.

(** * What the aggregator prints *)

(** The line a response makes the loop print, if any. *)
Definition printed_of {Time : Type} (r : pb.StreamingRecognizeResponse Time)
  : list (printed Time) :=
  if negb (pb.code (pb.error r) =? 0)
  then [error_line (pb.code (pb.error r)) (pb.message (pb.error r))]
  else match pb.results r with
       | first :: _ => if pb.is_final first then [] else [temporal_line first]
       | [] => []
       end.

(** The responses the loop gets through: those before the first one on
    which it raises. *)
Fixpoint until_break {Time : Type} (rs : list (pb.StreamingRecognizeResponse Time))
  : list (pb.StreamingRecognizeResponse Time) :=
  match rs with
  | [] => []
  | r :: rest => if breaks r then [] else r :: until_break rest
  end.

Lemma process_output {Time : Type} (t : bool) (acc : locals Time)
      (r : pb.StreamingRecognizeResponse Time) :
  match process_recognition t acc r with
  | Returned (_, out) => breaks r = false /\ out = printed_of r
  | Raised _ => breaks r = true
  end.
Proof.
  unfold process_recognition, breaks, printed_of, accumulate_final.
  destruct (pb.code (pb.error r) =? 0); cbn [negb andb]; [|split; reflexivity].
  destruct (pb.results r) as [|first others]; [split; reflexivity|].
  destruct (pb.is_final first); cbn [andb]; [|split; reflexivity].
  destruct (pb.alternatives first) as [|alt alts]; cbn [index0];
    [reflexivity | split; reflexivity].
Qed.

Lemma reduce_output {Time : Type} (t : bool)
      (rs : list (pb.StreamingRecognizeResponse Time)) :
  forall acc : locals Time,
    snd (reduce t acc rs) = flat_map printed_of (until_break rs).
Proof.
  induction rs as [|r rs IH]; intros acc; [reflexivity|].
  cbn [reduce until_break]. pose proof (process_output t acc r) as H.
  destruct (process_recognition t acc r) as [[acc' out]|e].
  - destruct H as [Hb ->]. rewrite Hb. cbn [flat_map].
    specialize (IH acc'). destruct (reduce t acc' rs) as [o out'].
    cbn [snd] in *. now rewrite IH.
  - rewrite H. reflexivity.
Qed.

(** X11: what [recognize_audio_content] prints is, in order, one error
    line for every response with a non-zero error code and one line for
    every other response whose first result is interim, up to the first
    response on which the loop raises; final results and responses
    without results print nothing. *)
Theorem X11_printed_lines {Time : Type} (s : Settings)
        (rs : list (pb.StreamingRecognizeResponse Time)) :
  snd (recognize_audio_content s rs) = flat_map printed_of (until_break rs) /\
  (existsb breaks rs = false ->
   snd (recognize_audio_content s rs) = flat_map printed_of rs).
Proof.
  assert (E : snd (recognize_audio_content s rs)
              = flat_map printed_of (until_break rs)).
  { unfold recognize_audio_content.
    pose proof (reduce_output (time_offsets s) rs initial_locals) as E.
    destruct (reduce (time_offsets s) initial_locals rs) as [[acc|e] out];
      exact E. }
  split; [exact E|]. intros H. rewrite E. f_equal.
  clear E. induction rs as [|r rs IH]; [reflexivity|].
  cbn [existsb] in H. apply orb_false_iff in H. destruct H as [Hr Hrs].
  cbn [until_break]. rewrite Hr, (IH Hrs). reflexivity.
Qed.

Example printed_lines_of_mixed_responses :
  snd (recognize_audio_content offsets_on mixed_responses)
  = [temporal_line {| pb.alternatives :=
                        [ {| pb.transcript := "hel"; pb.confidence := 0.5%float;
                             pb.words := [] |} ];
                      pb.is_final := false |};
     error_line 13 "internal"].
Proof. vm_compute. reflexivity. Qed.
